(** * nats-ls test publisher: a shallow embedding of [scripts/nats-tools/publish.py]

    The Python program starts a configurable number of asyncio publisher
    tasks of five kinds against a NATS broker, counts successes and failures
    in a shared [Stats] object, reports them periodically and prints a final
    summary after a signal-driven shutdown.

    Conventions of the embedding:
    - Python [int] is [Z]; a Python [float] that the program computes with
      (the readings of the clock, the elapsed time, the rate) is a binary64
      [float] with the arithmetic of IEEE 754; the intervals and timeouts
      that are only handed to [wait_for] and [request] are written as the
      exact rationals [n / 1000];
    - Python [str] is [string], each character standing for the code point
      of the same number (U+0000 .. U+00FF); [bytes] is [list byte];
    - everything the program obtains from outside (broker replies, the clock,
      the random generator, signal delivery, the task scheduler) is an
      explicit input of the function that consumes it;
    - everything the program does to the outside (printing, broker calls) is
      appended to an event log carried in the state. *)

From Stdlib Require Import ZArith QArith List String Ascii Bool Lia.
From Stdlib Require Import Floats.
From Stdlib Require Import DecimalString DecimalZ DecimalPos Permutation.
From Stdlib.Strings Require Import Byte.
Import ListNotations.

Local Open Scope string_scope.
Local Open Scope Z_scope.

(** ** Small pieces of the Python runtime *)

Module Py.

(** [str(n)] for an [int]. *)
Definition str (n : Z) : string := NilZero.string_of_int (Z.to_int n).

(** [s * n]: repetition of a one-character string. *)
Fixpoint repeat_char (c : ascii) (n : nat) : string :=
  match n with
  | O => EmptyString
  | S n' => String c (repeat_char c n')
  end.

(** The format specification [:>w]: right-align in a field of width [w]. *)
Definition rjust (w : nat) (s : string) : string :=
  repeat_char " "%char (w - String.length s) ++ s.

(** Exceptions are told apart by the [except] clauses of the program only
    through three classes; [exn_str] is the text that [str(e)] gives. *)
Inductive exn_class := NatsTimeoutError | BadRequestError | OtherException.

Record exn := Exn { exn_cls : exn_class; exn_str : string }.

Definition is_timeout (e : exn) : bool :=
  match exn_cls e with NatsTimeoutError => true | _ => false end.

Definition is_bad_request (e : exn) : bool :=
  match exn_cls e with BadRequestError => true | _ => false end.

(** Outcome of an awaited call: it returns a value or raises an
    [Exception]. *)
Inductive result (A : Type) :=
| Returns (a : A)
| Raises (e : exn).
Arguments Returns {A} a.
Arguments Raises {A} e.

(** The conversion of an [int] operand of a float operation: the nearest
    binary64 value, ties to even; an [int] beyond the range of the floats
    raises [OverflowError] ([None] here). *)
Definition float_of_int (n : Z) : option float :=
  match binary_normalize prec emax n 0 false with
  | S754_infinity _ => None
  | x => Some (SF2Prim x)
  end.

Definition overflow_error : exn :=
  Exn OtherException "int too large to convert to float".

End Py.
Import Py.

(** ** Config *)

Record Config := mkConfig {
  nats_url : string;
  normal_publishers : Z;
  normal_subject_prefix : string;
  normal_interval_ms : Z;
  js_publishers : Z;
  js_subject_prefix : string;
  js_stream_name : string;
  js_interval_ms : Z;
  reqrep_publishers : Z;
  reqrep_subject_prefix : string;
  reqrep_interval_ms : Z;
  reqrep_timeout_ms : Z;
  kv_publishers : Z;
  kv_bucket : string;
  kv_key_prefix : string;
  kv_interval_ms : Z;
  obj_publishers : Z;
  obj_bucket : string;
  obj_name_prefix : string;
  obj_interval_ms : Z;
  obj_size_bytes : Z;
  message_size_bytes : Z;
  include_timestamp : bool;
  include_sequence : bool;
  verbose : bool;
  stats_interval_sec : Z
}.

(** The defaults of the dataclass. *)
Definition default_config : Config := {|
  nats_url := "nats://localhost:4222";
  normal_publishers := 0;
  normal_subject_prefix := "test.normal";
  normal_interval_ms := 1000;
  js_publishers := 0;
  js_subject_prefix := "test.js";
  js_stream_name := "TEST";
  js_interval_ms := 1000;
  reqrep_publishers := 0;
  reqrep_subject_prefix := "test.service";
  reqrep_interval_ms := 2000;
  reqrep_timeout_ms := 5000;
  kv_publishers := 0;
  kv_bucket := "test-bucket";
  kv_key_prefix := "test-key";
  kv_interval_ms := 1500;
  obj_publishers := 0;
  obj_bucket := "test-objects";
  obj_name_prefix := "test-obj";
  obj_interval_ms := 5000;
  obj_size_bytes := 1024;
  message_size_bytes := 128;
  include_timestamp := true;
  include_sequence := true;
  verbose := false;
  stats_interval_sec := 5
|}.

(** ** Stats *)

(** The ten counters and the start time.  The [asyncio.Lock] field is not
    represented: under asyncio's cooperative scheduling the body of
    [increment] runs without interruption, which is what the update
    function below expresses. *)
Record Stats := mkStats {
  normal_sent : Z;
  normal_errors : Z;
  js_sent : Z;
  js_errors : Z;
  reqrep_sent : Z;
  reqrep_errors : Z;
  kv_sent : Z;
  kv_errors : Z;
  obj_sent : Z;
  obj_errors : Z;
  start_time : float
}.

(** [Stats()] created at time [now]. *)
Definition new_stats (now : float) : Stats :=
  mkStats 0 0 0 0 0 0 0 0 0 0 now.

(** [getattr(self, stat_name)] for the integer counters; [None] for any
    other name (see [increment]). *)
Definition getattr (self : Stats) (stat_name : string) : option Z :=
  if (stat_name =? "normal_sent")%string then Some (normal_sent self)
  else if (stat_name =? "normal_errors")%string then Some (normal_errors self)
  else if (stat_name =? "js_sent")%string then Some (js_sent self)
  else if (stat_name =? "js_errors")%string then Some (js_errors self)
  else if (stat_name =? "reqrep_sent")%string then Some (reqrep_sent self)
  else if (stat_name =? "reqrep_errors")%string then Some (reqrep_errors self)
  else if (stat_name =? "kv_sent")%string then Some (kv_sent self)
  else if (stat_name =? "kv_errors")%string then Some (kv_errors self)
  else if (stat_name =? "obj_sent")%string then Some (obj_sent self)
  else if (stat_name =? "obj_errors")%string then Some (obj_errors self)
  else None.

(** [setattr(self, stat_name, v)] for the integer counters. *)
Definition setattr (self : Stats) (stat_name : string) (v : Z) : Stats :=
  let '(mkStats ns ne js je rs re ks ke os oe t) := self in
  if (stat_name =? "normal_sent")%string then mkStats v ne js je rs re ks ke os oe t
  else if (stat_name =? "normal_errors")%string then mkStats ns v js je rs re ks ke os oe t
  else if (stat_name =? "js_sent")%string then mkStats ns ne v je rs re ks ke os oe t
  else if (stat_name =? "js_errors")%string then mkStats ns ne js v rs re ks ke os oe t
  else if (stat_name =? "reqrep_sent")%string then mkStats ns ne js je v re ks ke os oe t
  else if (stat_name =? "reqrep_errors")%string then mkStats ns ne js je rs v ks ke os oe t
  else if (stat_name =? "kv_sent")%string then mkStats ns ne js je rs re v ke os oe t
  else if (stat_name =? "kv_errors")%string then mkStats ns ne js je rs re ks v os oe t
  else if (stat_name =? "obj_sent")%string then mkStats ns ne js je rs re ks ke v oe t
  else if (stat_name =? "obj_errors")%string then mkStats ns ne js je rs re ks ke os v t
  else self.

(** [Stats.increment]: read the attribute, write it back plus [amount].
    Besides the counters the only numeric attribute is [start_time]; with
    any other name the call raises ([AttributeError] for an unknown name,
    [TypeError] for an attribute that is not a number: the model keeps one
    exception for both). *)
Definition increment (self : Stats) (stat_name : string) (amount : Z)
  : result Stats :=
  match getattr self stat_name with
  | Some current => Returns (setattr self stat_name (current + amount))
  | None =>
      if (stat_name =? "start_time")%string
      then
        let '(mkStats ns ne js je rs re ks ke os oe t) := self in
        match float_of_int amount with
        | Some a => Returns (mkStats ns ne js je rs re ks ke os oe (t + a)%float)
        | None => Raises overflow_error
        end
      else
        Raises (Exn OtherException
                  ("'Stats' object has no attribute '" ++ stat_name ++ "'"))
  end.

Definition total_sent (self : Stats) : Z :=
  normal_sent self + js_sent self + reqrep_sent self + kv_sent self
  + obj_sent self.

Definition total_errors (self : Stats) : Z :=
  normal_errors self + js_errors self + reqrep_errors self + kv_errors self
  + obj_errors self.

(** [Stats.rate], with [now] the value of [time.time()] at the call:
    [self.total_sent / elapsed if elapsed > 0 else 0].  The subtraction and
    the division are those of binary64; the division converts [total_sent]
    to a float first, which raises when it is out of range.  The [0] of the
    other branch is an [int] in Python, written here as the float of the
    same value (it is formatted the same). *)
Definition rate (self : Stats) (now : float) : result float :=
  let elapsed := (now - start_time self)%float in
  if (0 <? elapsed)%float
  then
    match float_of_int (total_sent self) with
    | Some total => Returns (total / elapsed)%float
    | None => Raises overflow_error
    end
  else Returns 0%float.

(** ** Message payloads *)

(** [string.ascii_letters + string.digits] *)
Definition alphabet : list ascii :=
  list_ascii_of_string
    "abcdefghijklmnopqrstuvwxyzABCDEFGHIJKLMNOPQRSTUVWXYZ0123456789".

(** [random.choices(population, k=k)].  The generator is an input: [rng i]
    is the index chosen at the [i]-th draw (reduced modulo the population
    size, as the library keeps it in range).  For [k <= 0] the library
    draws nothing and returns the empty list. *)
Definition choices (rng : nat -> nat) (population : list ascii) (k : Z)
  : list ascii :=
  map (fun i => nth (rng i mod List.length population) population "a"%char)
      (seq 0 (Z.to_nat k)).

(** [random_string(length)]: the chosen characters joined. *)
Definition random_string (rng : nat -> nat) (length : Z) : string :=
  string_of_list_ascii (choices rng alphabet length).

Module Json.

(** The values that occur in a message. *)
Inductive value :=
| VInt (n : Z)
| VStr (s : string).

(** A [dict] with string keys; insertion order is kept, as [json.dumps]
    writes the items in that order. *)
Definition dict := list (string * value).

(** [d[k] = v] *)
Fixpoint set (d : dict) (k : string) (v : value) : dict :=
  match d with
  | [] => [(k, v)]
  | (k', v') :: d' =>
      if (k' =? k)%string then (k, v) :: d' else (k', v') :: set d' k v
  end.


Definition dquote : ascii := "034"%char.
Definition backslash : ascii := "092"%char.

Definition hex_digit (n : N) : ascii :=
  nth (N.to_nat n) (list_ascii_of_string "0123456789abcdef") "0"%char.

(** Replacement of one character by [json.dumps] with [ensure_ascii]
    (the default): quote and backslash are escaped, the usual control
    characters have short escapes, every other character outside
    [' ' .. '~'] becomes a [\uXXXX] escape. *)
Definition escape_char (c : ascii) : string :=
  let n := N_of_ascii c in
  if (n =? 34)%N then String backslash (String dquote EmptyString)
  else if (n =? 92)%N then String backslash (String backslash EmptyString)
  else if (n =? 8)%N then String backslash "b"
  else if (n =? 12)%N then String backslash "f"
  else if (n =? 10)%N then String backslash "n"
  else if (n =? 13)%N then String backslash "r"
  else if (n =? 9)%N then String backslash "t"
  else if ((32 <=? n) && (n <=? 126))%N then String c EmptyString
  else String backslash
         (String "u" (String "0" (String "0"
            (String (hex_digit (n / 16)) (String (hex_digit (n mod 16))
               EmptyString))))).

Fixpoint escape (s : string) : string :=
  match s with
  | EmptyString => EmptyString
  | String c s' => escape_char c ++ escape s'
  end.

(** A string literal of the output. *)
Definition dumps_str (s : string) : string :=
  String dquote (escape s ++ String dquote EmptyString).

Definition dumps_value (v : value) : string :=
  match v with
  | VInt n => Py.str n
  | VStr s => dumps_str s
  end.

Definition dumps_item (kv : string * value) : string :=
  dumps_str (fst kv) ++ ": " ++ dumps_value (snd kv).

(** [json.dumps(d)] with the default separators. *)
Definition dumps (d : dict) : string :=
  "{" ++ String.concat ", " (map dumps_item d) ++ "}".

End Json.

(** [s.encode()]: UTF-8. *)
Definition encode_char (c : ascii) : list byte :=
  let n := N_of_ascii c in
  if (n <? 128)%N then [byte_of_ascii c]
  else [byte_of_ascii (ascii_of_N (192 + n / 64));
        byte_of_ascii (ascii_of_N (128 + n mod 64))].

Definition encode (s : string) : list byte :=
  flat_map encode_char (list_ascii_of_string s).

(** The dictionary [msg] that [create_message] builds; [utcnow] is the text
    of [datetime.utcnow().isoformat()] at the call. *)
Definition message_dict (publisher_id : Z) (publisher_type : string)
    (sequence : Z) (config : Config) (rng : nat -> nat) (utcnow : string)
  : Json.dict :=
  let msg :=
    [ ("publisher_id", Json.VInt publisher_id);
      ("publisher_type", Json.VStr publisher_type);
      ("data", Json.VStr (random_string rng (message_size_bytes config))) ] in
  let msg :=
    if include_sequence config
    then Json.set msg "sequence" (Json.VInt sequence) else msg in
  let msg :=
    if include_timestamp config
    then Json.set msg "timestamp" (Json.VStr (utcnow ++ "Z")) else msg in
  msg.

Definition create_message (publisher_id : Z) (publisher_type : string)
    (sequence : Z) (config : Config) (rng : nat -> nat) (utcnow : string)
  : list byte :=
  encode (Json.dumps
            (message_dict publisher_id publisher_type sequence config rng
               utcnow)).

(** ** The shared state of a run and the effects of the program *)

(** What the program does to the outside, in the order it happens. *)
Inductive event :=
| Print (text : string)                                   (* print(text) *)
| Connect (url : string)                                  (* nats.connect *)
| NcPublish (subject : string) (payload : list byte)      (* nc.publish *)
| JsPublish (subject : string) (payload : list byte)      (* js.publish *)
| NcRequest (subject : string) (payload : list byte) (timeout : Q)
                                                          (* nc.request *)
| KvPut (bucket key : string) (value : list byte)         (* kv.put *)
| ObjPut (bucket name : string) (data : list byte)        (* obs.put *)
| AddStream (name subjects : string)                      (* js.add_stream *)
| CreateKeyValue (bucket : string)                  (* js.create_key_value *)
| KeyValueLookup (bucket : string)                        (* js.key_value *)
| CreateObjectStore (bucket : string)            (* js.create_object_store *)
| ObjectStoreLookup (bucket : string)                  (* js.object_store *)
| StatIncrement (stat_name : string) (amount : Z)      (* stats.increment *)
| WaitFor (timeout : Q) (fired : bool)
      (* asyncio.wait_for(stop_event.wait(), timeout): returned, or timed out *)
| Close.                                                  (* nc.close *)

(** The five kinds of publisher; a task is a publisher of some kind or the
    statistics reporter. *)
Inductive kind := Normal | JetStream | ReqRep | KeyValue | ObjectStore.

Inductive role :=
| Publisher (k : kind)
| Reporter.

(** The state of a coroutine that [asyncio.create_task] has scheduled: not
    run yet, suspended in its loop with its local [sequence], returned, or
    ended by an exception. *)
Inductive task_state :=
| Created
| Alive (sequence : Z)
| Done
| Crashed (e : exn).

(** A task holds the arguments its coroutine was called with; [task_handle]
    is the bucket behind the [KeyValue] or [ObjectStore] handle (unused by
    the other kinds). *)
Record task := mkTask {
  task_role : role;
  task_handle : string;
  task_id : Z;
  task_config : Config;
  task_state_of : task_state
}.

(** The state of the process: the [Stats] instance and the [asyncio.Event]
    shared by all tasks, the outside world as the log of events, and the
    tasks of the event loop in creation order. *)
Record World := mkWorld {
  stats : Stats;
  stop_event : bool;
  trace : list event;
  pool : list task
}.

(** Computations that read and update the shared state and either return a
    value or raise. *)
Definition M (A : Type) : Type := World -> result A * World.

Definition ret {A} (a : A) : M A := fun w => (Returns a, w).

Definition raise {A} (e : exn) : M A := fun w => (Raises e, w).

Definition bind {A B} (m : M A) (k : A -> M B) : M B :=
  fun w =>
    match m w with
    | (Returns a, w') => k a w'
    | (Raises e, w') => (Raises e, w')
    end.

Notation "x <- m ;; k" := (bind m (fun x => k))
  (at level 61, m at next level, right associativity).
Notation "m ;; k" := (bind m (fun _ => k))
  (at level 61, right associativity).

(** [try: body  except Exception as e: handler(e)] *)
Definition try_except {A} (body : M A) (handler : exn -> M A) : M A :=
  fun w =>
    match body w with
    | (Returns a, w') => (Returns a, w')
    | (Raises e, w') => handler e w'
    end.

Definition emit (ev : event) : M unit :=
  fun w =>
    (Returns tt, mkWorld (stats w) (stop_event w) (trace w ++ [ev]) (pool w)).

Definition print (text : string) : M unit := emit (Print text).

(** [if cond: print(text)] *)
Definition print_if (cond : bool) (text : string) : M unit :=
  if cond then print text else ret tt.

(** [stop_event.is_set()] *)
Definition is_set : M bool := fun w => (Returns (stop_event w), w).

(** [await stats.increment(stat_name)] *)
Definition stats_increment (stat_name : string) : M unit :=
  fun w =>
    match increment (stats w) stat_name 1 with
    | Returns s' =>
        (Returns tt,
         mkWorld s' (stop_event w) (trace w ++ [StatIncrement stat_name 1])
           (pool w))
    | Raises e => (Raises e, w)
    end.

Definition newline : string := String "010"%char EmptyString.

(** The handler that [main] installs for SIGINT and SIGTERM. *)
Definition signal_handler : M unit :=
  print (newline ++ "Shutting down...") ;;
  fun w => (Returns tt, mkWorld (stats w) true (trace w) (pool w)).

(** Signal delivery while a task is suspended. *)
Definition deliver (signal : bool) : M unit :=
  if signal then signal_handler else ret tt.

(** What the environment does during one iteration of a task. *)
Record tick := mkTick {
  send_result : result unit;  (* outcome of the awaited broker call *)
  signal_in_send : bool;      (* a signal is handled while the call is pending *)
  signal_in_wait : bool;      (* a signal is handled during the sleep *)
  rng : nat -> nat;           (* the random draws of the iteration *)
  utcnow : string;            (* datetime.utcnow().isoformat() *)
  now : float                 (* time.time() *)
}.

(** An awaited broker call: the call is issued, the task is suspended, a
    signal may be handled meanwhile, then the call returns or raises. *)
Definition broker_call (call : event) (t : tick) : M unit :=
  emit call ;;
  deliver (signal_in_send t) ;;
  fun w => (send_result t, w).

(** The sleep between iterations,
    [try: await asyncio.wait_for(stop_event.wait(), timeout=interval)].
    The result is [true] when the wait returned (the event is set, before
    the wait or by a signal during it: [break]) and [false] when it raised
    [asyncio.TimeoutError].  With a timeout that is not positive some
    versions of [wait_for] raise [TimeoutError] although the event is set;
    the test of the loop then ends the loop at once, so the task does the
    same and the two cases are not told apart here. *)
Definition wait_for_stop (timeout : Q) (t : tick) : M bool :=
  deliver (signal_in_wait t) ;;
  fired <- is_set ;;
  emit (WaitFor timeout fired) ;;
  ret fired.

(** How a run over a finite script of the environment ends: the coroutine
    returned, or it is still in its loop when the script is used up (with
    the value of its local [sequence]). *)
Inductive status :=
| Returned
| Suspended (sequence : Z).

(** [n / 1000.0] *)
Definition ms_to_sec (n : Z) : Q := (inject_Z n / 1000)%Q.

(** ** The five publishers *)

Fixpoint normal_loop (publisher_id : Z) (config : Config) (subject : string)
    (interval : Q) (script : list tick) (sequence : Z) : M status :=
  stop <- is_set ;;
  if stop then ret Returned else
  match script with
  | [] => ret (Suspended sequence)
  | t :: script' =>
      let sequence := sequence + 1 in
      try_except
        (let msg := create_message publisher_id "normal" sequence config
                      (rng t) (utcnow t) in
         broker_call (NcPublish subject msg) t ;;
         stats_increment "normal_sent" ;;
         print_if (verbose config)
           ("[Normal-" ++ Py.str publisher_id ++ "] Published seq "
              ++ Py.str sequence ++ " to " ++ subject))
        (fun e =>
         stats_increment "normal_errors" ;;
         print_if (verbose config)
           ("[Normal-" ++ Py.str publisher_id ++ "] Error: " ++ exn_str e)) ;;
      fired <- wait_for_stop interval t ;;
      if fired then ret Returned
      else normal_loop publisher_id config subject interval script' sequence
  end.

Definition run_normal_publisher (publisher_id : Z) (config : Config)
    (script : list tick) : M status :=
  let subject := normal_subject_prefix config ++ "." ++ Py.str publisher_id in
  let interval := ms_to_sec (normal_interval_ms config) in
  let sequence := 0 in
  print_if (verbose config)
    ("[Normal-" ++ Py.str publisher_id ++ "] Started publishing to "
       ++ subject ++ " every " ++ Py.str (normal_interval_ms config) ++ "ms") ;;
  normal_loop publisher_id config subject interval script sequence.

Fixpoint js_loop (publisher_id : Z) (config : Config) (subject : string)
    (interval : Q) (script : list tick) (sequence : Z) : M status :=
  stop <- is_set ;;
  if stop then ret Returned else
  match script with
  | [] => ret (Suspended sequence)
  | t :: script' =>
      let sequence := sequence + 1 in
      try_except
        (let msg := create_message publisher_id "jetstream" sequence config
                      (rng t) (utcnow t) in
         broker_call (JsPublish subject msg) t ;;
         stats_increment "js_sent" ;;
         print_if (verbose config)
           ("[JS-" ++ Py.str publisher_id ++ "] Published seq "
              ++ Py.str sequence ++ " to " ++ subject))
        (fun e =>
         stats_increment "js_errors" ;;
         print_if (verbose config)
           ("[JS-" ++ Py.str publisher_id ++ "] Error: " ++ exn_str e)) ;;
      fired <- wait_for_stop interval t ;;
      if fired then ret Returned
      else js_loop publisher_id config subject interval script' sequence
  end.

Definition run_js_publisher (publisher_id : Z) (config : Config)
    (script : list tick) : M status :=
  let subject := js_subject_prefix config ++ "." ++ Py.str publisher_id in
  let interval := ms_to_sec (js_interval_ms config) in
  let sequence := 0 in
  print_if (verbose config)
    ("[JS-" ++ Py.str publisher_id ++ "] Started publishing to "
       ++ subject ++ " every " ++ Py.str (js_interval_ms config) ++ "ms") ;;
  js_loop publisher_id config subject interval script sequence.

Fixpoint reqrep_loop (publisher_id : Z) (config : Config) (subject : string)
    (interval timeout : Q) (script : list tick) (sequence : Z) : M status :=
  stop <- is_set ;;
  if stop then ret Returned else
  match script with
  | [] => ret (Suspended sequence)
  | t :: script' =>
      let sequence := sequence + 1 in
      try_except
        (let msg := create_message publisher_id "request-reply" sequence
                      config (rng t) (utcnow t) in
         broker_call (NcRequest subject msg timeout) t ;;
         stats_increment "reqrep_sent" ;;
         print_if (verbose config)
           ("[ReqRep-" ++ Py.str publisher_id ++ "] Request seq "
              ++ Py.str sequence ++ " got reply"))
        (fun e =>
         if is_timeout e then
           (* except NatsTimeoutError: *)
           stats_increment "reqrep_errors" ;;
           print_if (verbose config)
             ("[ReqRep-" ++ Py.str publisher_id
                ++ "] Timeout (no responder?)")
         else
           (* except Exception as e: *)
           stats_increment "reqrep_errors" ;;
           print_if (verbose config)
             ("[ReqRep-" ++ Py.str publisher_id ++ "] Error: "
                ++ exn_str e)) ;;
      fired <- wait_for_stop interval t ;;
      if fired then ret Returned
      else reqrep_loop publisher_id config subject interval timeout script'
             sequence
  end.

Definition run_reqrep_publisher (publisher_id : Z) (config : Config)
    (script : list tick) : M status :=
  let subject := reqrep_subject_prefix config ++ "." ++ Py.str publisher_id in
  let interval := ms_to_sec (reqrep_interval_ms config) in
  let timeout := ms_to_sec (reqrep_timeout_ms config) in
  let sequence := 0 in
  print_if (verbose config)
    ("[ReqRep-" ++ Py.str publisher_id ++ "] Started requesting to "
       ++ subject ++ " every " ++ Py.str (reqrep_interval_ms config)
       ++ "ms") ;;
  reqrep_loop publisher_id config subject interval timeout script sequence.

(** [kv] is the bucket behind the [KeyValue] handle. *)
Fixpoint kv_loop (kv : string) (publisher_id : Z) (config : Config)
    (key : string) (interval : Q) (script : list tick) (sequence : Z)
  : M status :=
  stop <- is_set ;;
  if stop then ret Returned else
  match script with
  | [] => ret (Suspended sequence)
  | t :: script' =>
      let sequence := sequence + 1 in
      try_except
        (let msg := create_message publisher_id "kv" sequence config
                      (rng t) (utcnow t) in
         broker_call (KvPut kv key msg) t ;;
         stats_increment "kv_sent" ;;
         print_if (verbose config)
           ("[KV-" ++ Py.str publisher_id ++ "] Put seq "
              ++ Py.str sequence ++ " to key " ++ key))
        (fun e =>
         stats_increment "kv_errors" ;;
         print_if (verbose config)
           ("[KV-" ++ Py.str publisher_id ++ "] Error: " ++ exn_str e)) ;;
      fired <- wait_for_stop interval t ;;
      if fired then ret Returned
      else kv_loop kv publisher_id config key interval script' sequence
  end.

Definition run_kv_publisher (kv : string) (publisher_id : Z)
    (config : Config) (script : list tick) : M status :=
  let key := kv_key_prefix config ++ "-" ++ Py.str publisher_id in
  let interval := ms_to_sec (kv_interval_ms config) in
  let sequence := 0 in
  print_if (verbose config)
    ("[KV-" ++ Py.str publisher_id ++ "] Started putting to key "
       ++ key ++ " every " ++ Py.str (kv_interval_ms config) ++ "ms") ;;
  kv_loop kv publisher_id config key interval script sequence.

(** [obs] is the bucket behind the [ObjectStore] handle. *)
Fixpoint obj_loop (obs : string) (publisher_id : Z) (config : Config)
    (obj_name : string) (interval : Q) (script : list tick) (sequence : Z)
  : M status :=
  stop <- is_set ;;
  if stop then ret Returned else
  match script with
  | [] => ret (Suspended sequence)
  | t :: script' =>
      let sequence := sequence + 1 in
      try_except
        (let data := encode (random_string (rng t) (obj_size_bytes config)) in
         broker_call (ObjPut obs obj_name data) t ;;
         stats_increment "obj_sent" ;;
         print_if (verbose config)
           ("[Obj-" ++ Py.str publisher_id ++ "] Put object " ++ obj_name
              ++ " seq " ++ Py.str sequence ++ " ("
              ++ Py.str (obj_size_bytes config) ++ " bytes)"))
        (fun e =>
         stats_increment "obj_errors" ;;
         print_if (verbose config)
           ("[Obj-" ++ Py.str publisher_id ++ "] Error: " ++ exn_str e)) ;;
      fired <- wait_for_stop interval t ;;
      if fired then ret Returned
      else obj_loop obs publisher_id config obj_name interval script' sequence
  end.

Definition run_obj_publisher (obs : string) (publisher_id : Z)
    (config : Config) (script : list tick) : M status :=
  let obj_name := obj_name_prefix config ++ "-" ++ Py.str publisher_id in
  let interval := ms_to_sec (obj_interval_ms config) in
  let sequence := 0 in
  print_if (verbose config)
    ("[Obj-" ++ Py.str publisher_id ++ "] Started putting object "
       ++ obj_name ++ " every " ++ Py.str (obj_interval_ms config) ++ "ms") ;;
  obj_loop obs publisher_id config obj_name interval script sequence.

(** ** The publisher loop of the specification

    The specification describes one loop for all kinds: (1) attempt one send
    of the kind, (2) count it as sent or as an error, (3) advance the local
    sequence number, (4) wait on the shutdown signal for the interval and
    leave the loop if it fired.  [publisher_loop] is that loop, written once
    and parameterised by the send operation. *)

Record SendOperation := mkSendOperation {
  send_call : Z -> tick -> event;  (* the broker call, with its payload *)
  sent_counter : string;
  error_counter : string;
  send_interval : Q;
  logging : bool;                  (* the logging collaborator *)
  log_started : string;
  log_sent : Z -> string;
  log_error : exn -> string
}.

Fixpoint publisher_loop (op : SendOperation) (script : list tick)
    (sequence : Z) : M status :=
  stop <- is_set ;;
  if stop then ret Returned else
  match script with
  | [] => ret (Suspended sequence)
  | t :: script' =>
      (* steps 1 and 2 *)
      try_except
        (broker_call (send_call op sequence t) t ;;
         stats_increment (sent_counter op) ;;
         print_if (logging op) (log_sent op sequence))
        (fun e =>
         stats_increment (error_counter op) ;;
         print_if (logging op) (log_error op e)) ;;
      (* step 3 *)
      let sequence := sequence + 1 in
      (* step 4 *)
      fired <- wait_for_stop (send_interval op) t ;;
      if fired then ret Returned else publisher_loop op script' sequence
  end.

(** The first payload carries the sequence number 1. *)
Definition run_publisher (op : SendOperation) (script : list tick)
  : M status :=
  print_if (logging op) (log_started op) ;;
  publisher_loop op script 1.

(** The send operation of each kind: target, payload, counters, interval and
    the texts of the verbose log. *)
Definition send_operation (k : kind) (handle : string) (publisher_id : Z)
    (config : Config) : SendOperation :=
  let id := Py.str publisher_id in
  match k with
  | Normal =>
      let subject := normal_subject_prefix config ++ "." ++ id in
      mkSendOperation
        (fun sequence t =>
           NcPublish subject
             (create_message publisher_id "normal" sequence config (rng t)
                (utcnow t)))
        "normal_sent" "normal_errors"
        (ms_to_sec (normal_interval_ms config))
        (verbose config)
        ("[Normal-" ++ id ++ "] Started publishing to " ++ subject
           ++ " every " ++ Py.str (normal_interval_ms config) ++ "ms")
        (fun sequence =>
           "[Normal-" ++ id ++ "] Published seq " ++ Py.str sequence
             ++ " to " ++ subject)
        (fun e => "[Normal-" ++ id ++ "] Error: " ++ exn_str e)
  | JetStream =>
      let subject := js_subject_prefix config ++ "." ++ id in
      mkSendOperation
        (fun sequence t =>
           JsPublish subject
             (create_message publisher_id "jetstream" sequence config (rng t)
                (utcnow t)))
        "js_sent" "js_errors"
        (ms_to_sec (js_interval_ms config))
        (verbose config)
        ("[JS-" ++ id ++ "] Started publishing to " ++ subject
           ++ " every " ++ Py.str (js_interval_ms config) ++ "ms")
        (fun sequence =>
           "[JS-" ++ id ++ "] Published seq " ++ Py.str sequence
             ++ " to " ++ subject)
        (fun e => "[JS-" ++ id ++ "] Error: " ++ exn_str e)
  | ReqRep =>
      let subject := reqrep_subject_prefix config ++ "." ++ id in
      mkSendOperation
        (fun sequence t =>
           NcRequest subject
             (create_message publisher_id "request-reply" sequence config
                (rng t) (utcnow t))
             (ms_to_sec (reqrep_timeout_ms config)))
        "reqrep_sent" "reqrep_errors"
        (ms_to_sec (reqrep_interval_ms config))
        (verbose config)
        ("[ReqRep-" ++ id ++ "] Started requesting to " ++ subject
           ++ " every " ++ Py.str (reqrep_interval_ms config) ++ "ms")
        (fun sequence =>
           "[ReqRep-" ++ id ++ "] Request seq " ++ Py.str sequence
             ++ " got reply")
        (fun e =>
           if is_timeout e
           then "[ReqRep-" ++ id ++ "] Timeout (no responder?)"
           else "[ReqRep-" ++ id ++ "] Error: " ++ exn_str e)
  | KeyValue =>
      let key := kv_key_prefix config ++ "-" ++ id in
      mkSendOperation
        (fun sequence t =>
           KvPut handle key
             (create_message publisher_id "kv" sequence config (rng t)
                (utcnow t)))
        "kv_sent" "kv_errors"
        (ms_to_sec (kv_interval_ms config))
        (verbose config)
        ("[KV-" ++ id ++ "] Started putting to key " ++ key
           ++ " every " ++ Py.str (kv_interval_ms config) ++ "ms")
        (fun sequence =>
           "[KV-" ++ id ++ "] Put seq " ++ Py.str sequence ++ " to key "
             ++ key)
        (fun e => "[KV-" ++ id ++ "] Error: " ++ exn_str e)
  | ObjectStore =>
      let obj_name := obj_name_prefix config ++ "-" ++ id in
      mkSendOperation
        (fun _ t =>
           ObjPut handle obj_name
             (encode (random_string (rng t) (obj_size_bytes config))))
        "obj_sent" "obj_errors"
        (ms_to_sec (obj_interval_ms config))
        (verbose config)
        ("[Obj-" ++ id ++ "] Started putting object " ++ obj_name
           ++ " every " ++ Py.str (obj_interval_ms config) ++ "ms")
        (fun sequence =>
           "[Obj-" ++ id ++ "] Put object " ++ obj_name ++ " seq "
             ++ Py.str sequence ++ " (" ++ Py.str (obj_size_bytes config)
             ++ " bytes)")
        (fun e => "[Obj-" ++ id ++ "] Error: " ++ exn_str e)
  end.

(** What is compared between the two formulations: the state of the process
    afterwards and whether the task returned, raised or is still looping;
    the private sequence number is not part of it. *)
Inductive termination := HasReturned | StillLooping | HasRaised (e : exn).

Definition behaviour (r : result status * World) : termination * World :=
  (match fst r with
   | Returns Returned => HasReturned
   | Returns (Suspended _) => StillLooping
   | Raises e => HasRaised e
   end, snd r).

(** ** The statistics reporter and the final summary *)

(** [a / b] rounded to the nearest integer, ties to even ([0 <= a], [0 < b]). *)
Definition round_half_even (a b : Z) : Z :=
  let q := a / b in
  let r := a mod b in
  if 2 * r <? b then q
  else if b <? 2 * r then q + 1
  else if Z.even q then q else q + 1.

(** The digits of [num / den] with [d] digits after the point, rounded to
    the nearest, ties to even, after the sign. *)
Definition format_fixed (d : nat) (negative : bool) (num den : Z) : string :=
  let scale := 10 ^ Z.of_nat d in
  let n := round_half_even (num * scale) den in
  let sign := if negative then "-" else "" in
  let frac := Py.str (n mod scale) in
  sign ++ Py.str (n / scale)
    ++ match d with
       | O => ""
       | _ => "." ++ repeat_char "0"%char (d - String.length frac) ++ frac
       end.

(** The format specification [:.df] of a float: [d] digits after the point,
    from the exact value [m * 2 ^ e] of the float. *)
Definition format_float (d : nat) (x : float) : string :=
  match Prim2SF x with
  | S754_zero s => format_fixed d s 0 1
  | S754_infinity s => if s then "-inf" else "inf"
  | S754_nan => "nan"
  | S754_finite s m e =>
      if 0 <=? e then format_fixed d s (Zpos m * 2 ^ e) 1
      else format_fixed d s (Zpos m) (2 ^ (- e))
  end.

(** The text of [f"{stats.rate():.df}"].  When the total is beyond the
    range of the floats the formatting raises with [rate]; the total of a
    run counts the sends it made one by one and stays far below that
    range, and the text is taken as that of an infinite rate there. *)
Definition rate_text (d : nat) (s : Stats) (now : float) : string :=
  match rate s now with
  | Returns r => format_float d r
  | Raises _ => "inf"
  end.

(** The line that the reporter prints, from the counters and the clock at
    that moment. *)
Definition stats_line (s : Stats) (now : float) : string :=
  "Stats: Normal=" ++ Py.str (normal_sent s)
    ++ " JS=" ++ Py.str (js_sent s) ++ " "
    ++ "ReqRep=" ++ Py.str (reqrep_sent s)
    ++ " KV=" ++ Py.str (kv_sent s)
    ++ " Obj=" ++ Py.str (obj_sent s) ++ " | "
    ++ "Total=" ++ Py.str (total_sent s)
    ++ " | Rate=" ++ rate_text 1 s now ++ " msg/s".

Fixpoint stats_reporter (config : Config) (script : list tick) : M status :=
  stop <- is_set ;;
  if stop then ret Returned else
  match script with
  | [] => ret (Suspended 0)
  | t :: script' =>
      fired <- wait_for_stop (inject_Z (stats_interval_sec config)) t ;;
      if fired then ret Returned
      else
        (fun w => print (stats_line (stats w) (now t)) w) ;;
        stats_reporter config script'
  end.

Definition banner : string := repeat_char "="%char 42.

(** The lines of [print_final_stats]; the clock is read twice, for the
    runtime ([now1]) and inside [rate] ([now2]). *)
Definition final_stats_lines (s : Stats) (now1 now2 : float) : list string :=
  let elapsed := (now1 - start_time s)%float in
  [ newline ++ banner;
    "           Final Statistics";
    banner;
    "Runtime: " ++ format_float 1 elapsed ++ " seconds" ++ newline;
    "Messages Sent:";
    "  Normal:        " ++ rjust 8 (Py.str (normal_sent s))
      ++ " (errors: " ++ Py.str (normal_errors s) ++ ")";
    "  JetStream:     " ++ rjust 8 (Py.str (js_sent s))
      ++ " (errors: " ++ Py.str (js_errors s) ++ ")";
    "  Request-Reply: " ++ rjust 8 (Py.str (reqrep_sent s))
      ++ " (errors: " ++ Py.str (reqrep_errors s) ++ ")";
    "  Key-Value:     " ++ rjust 8 (Py.str (kv_sent s))
      ++ " (errors: " ++ Py.str (kv_errors s) ++ ")";
    "  Object Store:  " ++ rjust 8 (Py.str (obj_sent s))
      ++ " (errors: " ++ Py.str (obj_errors s) ++ ")";
    "";
    "Total: " ++ Py.str (total_sent s) ++ " messages (errors: "
      ++ Py.str (total_errors s) ++ ")";
    "Average Rate: " ++ rate_text 2 s now2 ++ " msg/s";
    banner ].

Fixpoint print_all (lines : list string) : M unit :=
  match lines with
  | [] => ret tt
  | l :: lines' => print l ;; print_all lines'
  end.

Definition print_final_stats (now1 now2 : float) : M unit :=
  fun w => print_all (final_stats_lines (stats w) now1 now2) w.

(** ** The event loop

    asyncio runs the tasks one at a time and switches between them only at
    an [await].  A task of this program touches the shared state at one
    place of an iteration (the counter increment after the broker call), so
    a run of the loop is taken as a sequence of turns, each being a signal
    that arrives or one iteration of one task with what the environment does
    during it; the order of the turns is the order in which the iterations
    take effect. *)
Inductive sched_entry :=
| Signal                          (* SIGINT or SIGTERM arrives *)
| Step (i : nat) (t : tick).      (* task [i] runs one iteration of its loop *)

(** An awaited call of [main]: while it is pending the event loop runs the
    tasks created so far ([meanwhile]); then it returns or raises. *)
Record awaited := mkAwaited {
  meanwhile : list sched_entry;
  outcome : result unit
}.

(** The coroutine of a publisher of kind [k]. *)
Definition run_publisher_of (k : kind) (handle : string) (publisher_id : Z)
    (config : Config) (script : list tick) : M status :=
  match k with
  | Normal => run_normal_publisher publisher_id config script
  | JetStream => run_js_publisher publisher_id config script
  | ReqRep => run_reqrep_publisher publisher_id config script
  | KeyValue => run_kv_publisher handle publisher_id config script
  | ObjectStore => run_obj_publisher handle publisher_id config script
  end.

(** Its loop, entered with the values that the coroutine gave to its local
    variables before the loop and with the current [sequence]. *)
Definition loop_of (k : kind) (handle : string) (publisher_id : Z)
    (config : Config) (script : list tick) (sequence : Z) : M status :=
  match k with
  | Normal =>
      normal_loop publisher_id config
        (normal_subject_prefix config ++ "." ++ Py.str publisher_id)
        (ms_to_sec (normal_interval_ms config)) script sequence
  | JetStream =>
      js_loop publisher_id config
        (js_subject_prefix config ++ "." ++ Py.str publisher_id)
        (ms_to_sec (js_interval_ms config)) script sequence
  | ReqRep =>
      reqrep_loop publisher_id config
        (reqrep_subject_prefix config ++ "." ++ Py.str publisher_id)
        (ms_to_sec (reqrep_interval_ms config))
        (ms_to_sec (reqrep_timeout_ms config)) script sequence
  | KeyValue =>
      kv_loop handle publisher_id config
        (kv_key_prefix config ++ "-" ++ Py.str publisher_id)
        (ms_to_sec (kv_interval_ms config)) script sequence
  | ObjectStore =>
      obj_loop handle publisher_id config
        (obj_name_prefix config ++ "-" ++ Py.str publisher_id)
        (ms_to_sec (obj_interval_ms config)) script sequence
  end.

(** Resuming a task for the iterations of [script]: a task that has not run
    yet starts its coroutine, a suspended one continues its loop. *)
Definition resume (tk : task) (script : list tick) : M status :=
  match task_state_of tk, task_role tk with
  | Created, Publisher k =>
      run_publisher_of k (task_handle tk) (task_id tk) (task_config tk) script
  | Alive sequence, Publisher k =>
      loop_of k (task_handle tk) (task_id tk) (task_config tk) script sequence
  | Created, Reporter | Alive _, Reporter =>
      stats_reporter (task_config tk) script
  | Done, _ => ret Returned
  | Crashed e, _ => raise e
  end.

Definition state_after (r : result status) : task_state :=
  match r with
  | Returns Returned => Done
  | Returns (Suspended sequence) => Alive sequence
  | Raises e => Crashed e
  end.

Definition set_state (tk : task) (st : task_state) : task :=
  mkTask (task_role tk) (task_handle tk) (task_id tk) (task_config tk) st.

Fixpoint update {A} (l : list A) (i : nat) (a : A) : list A :=
  match l, i with
  | [], _ => []
  | _ :: l', O => a :: l'
  | x :: l', S i' => x :: update l' i' a
  end.

(** One turn of the event loop; a turn given to a task that has ended, or
    to no task, does nothing. *)
Definition step (e : sched_entry) : M unit :=
  match e with
  | Signal => signal_handler
  | Step i t =>
      fun w =>
        match nth_error (pool w) i with
        | None => (Returns tt, w)
        | Some tk =>
            match task_state_of tk with
            | Done | Crashed _ => (Returns tt, w)
            | _ =>
                let '(r, w') := resume tk [t] w in
                (Returns tt,
                 mkWorld (stats w') (stop_event w') (trace w')
                   (update (pool w') i (set_state tk (state_after r))))
            end
        end
  end.

Fixpoint run_tasks (sched : list sched_entry) : M unit :=
  match sched with
  | [] => ret tt
  | e :: sched' => step e ;; run_tasks sched'
  end.

(** ** Provisioning *)

(** [await call]: the call is issued, the loop runs other tasks, the call
    completes. *)
Definition await (call : event) (a : awaited) : M unit :=
  emit call ;;
  run_tasks (meanwhile a) ;;
  fun w => (outcome a, w).

(** What the broker and the scheduler do during a run of [main]. *)
Record Env := mkEnv {
  connect : result unit;            (* nats.connect *)
  add_stream : awaited;             (* js.add_stream *)
  create_key_value : awaited;       (* js.create_key_value *)
  key_value : awaited;              (* js.key_value *)
  create_object_store : awaited;    (* js.create_object_store *)
  object_store : awaited;           (* js.object_store *)
  started : float;                  (* time.time() when Stats() is created *)
  schedule : list sched_entry;      (* the event loop during gather *)
  finished1 : float;                (* time.time() in print_final_stats *)
  finished2 : float;                (* time.time() in rate() called by it *)
  close : result unit               (* nc.close *)
}.

Definition ensure_stream (env : Env) (name subject_prefix : string) : M unit :=
  try_except
    (await (AddStream name (subject_prefix ++ ".>")) (add_stream env) ;;
     print ("Created stream: " ++ name))
    (fun e =>
     if is_bad_request e then
       (* Stream already exists *)
       ret tt
     else
       print ("Warning: Could not ensure stream exists: " ++ exn_str e)).

(** The result is the handle ([Some bucket]) or [None]. *)
Definition ensure_kv_bucket (env : Env) (bucket : string)
  : M (option string) :=
  try_except
    (await (CreateKeyValue bucket) (create_key_value env) ;;
     print ("Created KV bucket: " ++ bucket) ;;
     ret (Some bucket))
    (fun e =>
     if is_bad_request e then
       (* Bucket already exists *)
       await (KeyValueLookup bucket) (key_value env) ;;
       ret (Some bucket)
     else
       print ("Warning: Could not ensure KV bucket exists: " ++ exn_str e) ;;
       ret None).

Definition ensure_object_store (env : Env) (bucket : string)
  : M (option string) :=
  try_except
    (await (CreateObjectStore bucket) (create_object_store env) ;;
     print ("Created Object Store bucket: " ++ bucket) ;;
     ret (Some bucket))
    (fun e =>
     if is_bad_request e then
       (* Bucket already exists *)
       await (ObjectStoreLookup bucket) (object_store env) ;;
       ret (Some bucket)
     else
       print ("Warning: Could not ensure Object Store bucket exists: "
                ++ exn_str e) ;;
       ret None).

(** ** The orchestrator *)

(** [range(n)] *)
Definition range (n : Z) : list Z := map Z.of_nat (seq 0 (Z.to_nat n)).

(** [tasks.append(asyncio.create_task(...))] *)
Definition create_task (k : role) (handle : string) (config : Config)
    (i : Z) : M unit :=
  fun w =>
    (Returns tt,
     mkWorld (stats w) (stop_event w) (trace w)
       (pool w ++ [mkTask k handle i config Created])).

(** [for i in range(n): tasks.append(asyncio.create_task(...))] *)
Fixpoint create_tasks (k : role) (handle : string) (config : Config)
    (ids : list Z) : M unit :=
  match ids with
  | [] => ret tt
  | i :: ids' => create_task k handle config i ;; create_tasks k handle config ids'
  end.

Definition is_done (tk : task) : bool :=
  match task_state_of tk with Done => true | _ => false end.

Definition first_crash (tasks : list task) : option exn :=
  match
    find (fun tk => match task_state_of tk with Crashed _ => true | _ => false end)
         tasks
  with
  | Some tk => match task_state_of tk with Crashed e => Some e | _ => None end
  | None => None
  end.

(** [await asyncio.gather] over all tasks: the loop runs until every task has
    returned; an exception of a task is raised to the caller.  The result
    is [false] when the schedule ends with a task still in its loop. *)
Fixpoint gather (sched : list sched_entry) : M bool :=
  fun w =>
    match first_crash (pool w) with
    | Some e => (Raises e, w)
    | None =>
        if forallb is_done (pool w) then (Returns true, w)
        else
          match sched with
          | [] => (Returns false, w)
          | e :: sched' => (step e ;; gather sched') w
          end
    end.

(** How [main] ends: [sys.exit(code)], a normal return, or still waiting in
    [gather] when the schedule of the environment is used up. *)
Inductive ending :=
| Exit (code : Z)
| Finished
| Waiting.

Definition main (config : Config) (env : Env) : M ending :=
  let total_publishers :=
    normal_publishers config + js_publishers config
    + reqrep_publishers config + kv_publishers config
    + obj_publishers config in
  if total_publishers =? 0 then
    print "No publishers configured. Use flags or config file to specify publishers." ;;
    print "Example: nats_test_publisher.py --normal 5 --js 3" ;;
    print "Run with --help for options or --generate-config for a sample config file." ;;
    ret (Exit 1)
  else
    print ("Connecting to NATS at " ++ nats_url config ++ "...") ;;
    emit (Connect (nats_url config)) ;;
    match connect env with
    | Raises e =>
        print ("Failed to connect to NATS: " ++ exn_str e) ;;
        ret (Exit 1)
    | Returns _ =>
        print "Connected to NATS" ;;
        (if (js_publishers config >? 0) || (kv_publishers config >? 0)
            || (obj_publishers config >? 0)
         then print "JetStream context created" else ret tt) ;;
        (* stop_event = asyncio.Event(); stats = Stats(); tasks = [] *)
        (fun w =>
           (Returns tt, mkWorld (new_stats (started env)) false (trace w) [])) ;;
        print ("Starting " ++ Py.str total_publishers ++ " publishers...") ;;
        create_tasks (Publisher Normal) "" config (range (normal_publishers config)) ;;
        (if js_publishers config >? 0 then
           ensure_stream env (js_stream_name config) (js_subject_prefix config) ;;
           create_tasks (Publisher JetStream) "" config (range (js_publishers config))
         else ret tt) ;;
        create_tasks (Publisher ReqRep) "" config (range (reqrep_publishers config)) ;;
        (if kv_publishers config >? 0 then
           kv <- ensure_kv_bucket env (kv_bucket config) ;;
           match kv with
           | Some kv =>
               create_tasks (Publisher KeyValue) kv config (range (kv_publishers config))
           | None => ret tt
           end
         else ret tt) ;;
        (if obj_publishers config >? 0 then
           obs <- ensure_object_store env (obj_bucket config) ;;
           match obs with
           | Some obs =>
               create_tasks (Publisher ObjectStore) obs config
                 (range (obj_publishers config))
           | None => ret tt
           end
         else ret tt) ;;
        (if stats_interval_sec config >? 0
         then create_task Reporter "" config 0 else ret tt) ;;
        print "All publishers started. Press Ctrl+C to stop." ;;
        all_returned <- gather (schedule env) ;;
        if all_returned then
          print_final_stats (finished1 env) (finished2 env) ;;
          emit Close ;;
          (fun w => (close env, w)) ;;
          ret Finished
        else ret Waiting
    end.

(** The process before [main] is entered. *)
Definition initial_world : World := mkWorld (new_stats 0) false [] [].

Definition program (config : Config) (env : Env) : result ending * World :=
  main config env initial_world.

(** ** Specification-side vocabulary *)

(** The names of the ten counters. *)
Definition counter_names : list string :=
  [ "normal_sent"; "normal_errors"; "js_sent"; "js_errors"; "reqrep_sent";
    "reqrep_errors"; "kv_sent"; "kv_errors"; "obj_sent"; "obj_errors" ].

Definition is_counter (stat_name : string) : bool :=
  match getattr (new_stats 0) stat_name with
  | Some _ => true
  | None => false
  end.

(** Every counter of [s'] is at least the one of [s]; the start time is the
    same. *)
Definition stats_le (s s' : Stats) : Prop :=
  normal_sent s <= normal_sent s' /\ normal_errors s <= normal_errors s' /\
  js_sent s <= js_sent s' /\ js_errors s <= js_errors s' /\
  reqrep_sent s <= reqrep_sent s' /\ reqrep_errors s <= reqrep_errors s' /\
  kv_sent s <= kv_sent s' /\ kv_errors s <= kv_errors s' /\
  obj_sent s <= obj_sent s' /\ obj_errors s <= obj_errors s' /\
  start_time s = start_time s'.

(** [s'] is [s] with the counter [stat_name] one higher. *)
Definition bump (stat_name : string) (s : Stats) : Stats :=
  match increment s stat_name 1 with
  | Returns s' => s'
  | Raises _ => s
  end.

(** The counter names of a send operation are counters. *)
Definition well_formed (op : SendOperation) : Prop :=
  is_counter (sent_counter op) = true /\ is_counter (error_counter op) = true.

(** The counter that an iteration with environment [t] increments. *)
Definition counted (op : SendOperation) (t : tick) : string :=
  match send_result t with
  | Returns _ => sent_counter op
  | Raises _ => error_counter op
  end.

Definition shutdown_notice : event := Print (newline ++ "Shutting down...").

(** The events of one iteration that sends with the tag [sequence]. *)
Definition iteration_events (op : SendOperation) (t : tick) (sequence : Z)
  : list event :=
  [send_call op sequence t]
  ++ (if signal_in_send t then [shutdown_notice] else [])
  ++ [StatIncrement (counted op t) 1]
  ++ (if logging op
      then [Print match send_result t with
                  | Returns _ => log_sent op sequence
                  | Raises e => log_error op e
                  end]
      else [])
  ++ (if signal_in_wait t then [shutdown_notice] else [])
  ++ [WaitFor (send_interval op) (signal_in_send t || signal_in_wait t)].

(** The state after one iteration entered with the event not set. *)
Definition after_iteration (op : SendOperation) (t : tick) (sequence : Z)
    (w : World) : World :=
  mkWorld (bump (counted op t) (stats w))
          (signal_in_send t || signal_in_wait t)
          (trace w ++ iteration_events op t sequence)
          (pool w).

(** The coroutine is its loop entered with [sequence = 0], after the line
    that announces the task in verbose mode. *)
Definition announced (op : SendOperation) (w : World) : World :=
  if logging op
  then mkWorld (stats w) (stop_event w) (trace w ++ [Print (log_started op)])
         (pool w)
  else w.

(** The counters of each kind. *)
Definition sent_of (k : kind) : string :=
  match k with
  | Normal => "normal_sent"
  | JetStream => "js_sent"
  | ReqRep => "reqrep_sent"
  | KeyValue => "kv_sent"
  | ObjectStore => "obj_sent"
  end.

Definition errors_of (k : kind) : string :=
  match k with
  | Normal => "normal_errors"
  | JetStream => "js_errors"
  | ReqRep => "reqrep_errors"
  | KeyValue => "kv_errors"
  | ObjectStore => "obj_errors"
  end.

(** The events that were added to the log between two states. *)
Definition new_events (w w' : World) : list event :=
  skipn (List.length (trace w)) (trace w').

(** The counters after the increments recorded in a list of events. *)
Definition apply_event (s : Stats) (e : event) : Stats :=
  match e with
  | StatIncrement name amount =>
      match increment s name amount with
      | Returns s' => s'
      | Raises _ => s
      end
  | _ => s
  end.

Definition replay (evs : list event) (s : Stats) : Stats :=
  fold_left apply_event evs s.

Definition is_fired_wait (e : event) : bool :=
  match e with WaitFor _ true => true | _ => false end.

(** The environment of an iteration: the send fails, no signal arrives. *)
Definition send_fails (t : tick) : Prop := exists e, send_result t = Raises e.

Definition no_signal (t : tick) : Prop :=
  signal_in_send t = false /\ signal_in_wait t = false.

(** The events that tasks produce: broker sends, counter increments by 1,
    waits, the lines of the verbose log (they start with a bracket), the
    lines of the reporter and the notice of the signal handler. *)
Definition task_event (e : event) : bool :=
  match e with
  | Print text =>
      prefix "[" text || prefix "Stats: " text
      || (text =? newline ++ "Shutting down...")%string
  | NcPublish _ _ | JsPublish _ _ | NcRequest _ _ _ | KvPut _ _ _
  | ObjPut _ _ _ | WaitFor _ _ => true
  | StatIncrement name amount => is_counter name && (amount =? 1)
  | _ => false
  end.

(** The line of the final summary that reports the totals. *)
Definition total_line (s : Stats) : string :=
  "Total: " ++ Py.str (total_sent s) ++ " messages (errors: "
    ++ Py.str (total_errors s) ++ ")".

Definition is_total_line (e : event) : bool :=
  match e with
  | Print text => prefix "Total: " text
  | _ => false
  end.

(** What identifies a task in the pool, whatever its state. *)
Definition identity (tk : task) : role * string * Z :=
  (task_role tk, task_handle tk, task_id tk).

(** The lines of the reporter, and the waits that timed out. *)
Definition is_stats_line (e : event) : bool :=
  match e with
  | Print text => prefix "Stats: " text
  | _ => false
  end.

Definition is_timed_out_wait (e : event) : bool :=
  match e with WaitFor _ false => true | _ => false end.

(** The events that precede the final summary in a run: anything but the
    totals line of the summary and the closing of the connection. *)
Definition ordinary (e : event) : bool :=
  match e with
  | Print text => negb (prefix "Total: " text)
  | Close => false
  | _ => true
  end.

Definition before_summary (w : World) : Prop :=
  Forall (fun e => ordinary e = true) (trace w).

(** The events of [main] itself before the summary: ordinary events that are
    not counter increments. *)
Definition plain (e : event) : bool :=
  match e with
  | StatIncrement _ _ => false
  | _ => ordinary e
  end.

Definition is_increment (e : event) : bool :=
  match e with StatIncrement _ _ => true | _ => false end.

(** Every increment in the log is the increment by 1 of a counter. *)
Definition unit_increment (e : event) : bool :=
  match e with
  | StatIncrement name amount => is_counter name && (amount =? 1)
  | _ => true
  end.

(** The counters are accounted for by the log: they are what the increments
    logged so far, each of a counter and by 1, make of counters that are all
    zero. *)
Definition accounted (w : World) : Prop :=
  stats w = replay (trace w) (new_stats (start_time (stats w)))
  /\ Forall (fun e => unit_increment e = true) (trace w).

(** Before [Stats()] is created: nothing has been counted. *)
Definition nothing_counted (w : World) : Prop :=
  Forall (fun e => is_increment e = false) (trace w).

(** [m] keeps the invariant [I], whether it returns or raises. *)
Definition keeps {A} (I : World -> Prop) (m : M A) : Prop :=
  forall w, I w -> I (snd (m w)).

(** From a state in [I], [m] ends in a state in [Q]. *)
Definition leads_to {A} (I : World -> Prop) (m : M A) (Q : World -> Prop)
  : Prop :=
  forall w, I w -> Q (snd (m w)).

(** The state in which [main] leaves the process after the final summary:
    the state [wg] in which [gather] returned, with the lines of the summary
    (computed from the counters of [wg]) and the closing of the connection
    appended to the log. *)
Definition summarised (env : Env) (w' : World) : Prop :=
  exists wg,
    before_summary wg
    /\ forallb is_done (pool wg) = true
    /\ w' = mkWorld (stats wg) (stop_event wg)
              (trace wg
               ++ map Print
                    (final_stats_lines (stats wg) (finished1 env)
                       (finished2 env))
               ++ [Close])%list
              (pool wg).

(** From a state in [P], [m] returns (it does not raise) a value and a
    state in [Q]. *)
Definition returns {A} (P : World -> Prop) (m : M A) (Q : A -> World -> Prop)
  : Prop :=
  forall w, P w -> exists a, fst (m w) = Returns a /\ Q a (snd (m w)).

(** The tasks of the pool are those of [l], in this order. *)
Definition has_tasks (l : list (role * string * Z)) (w : World) : Prop :=
  map identity (pool w) = l.

Definition tasks_of (k : role) (handle : string) (ids : list Z)
  : list (role * string * Z) :=
  map (fun i => (k, handle, i)) ids.

(** What the two calls behind [ensure_kv_bucket] and [ensure_object_store]
    amount to: a handle ([Some true]), no handle ([Some false]), or an
    exception that the function lets through ([None]: the bucket is
    reported as existing and the lookup raises). *)
Definition provisioned (create lookup : awaited) : option bool :=
  match outcome create with
  | Returns _ => Some true
  | Raises e =>
      if is_bad_request e then
        match outcome lookup with
        | Returns _ => Some true
        | Raises _ => None
        end
      else Some false
  end.

Definition with_handle (p : option bool) (l : list (role * string * Z))
  : list (role * string * Z) :=
  match p with Some true => l | _ => [] end.

(** The tasks that [main] creates, in creation order. *)
Definition expected_tasks (config : Config) (env : Env)
  : list (role * string * Z) :=
  (tasks_of (Publisher Normal) "" (range (normal_publishers config))
   ++ tasks_of (Publisher JetStream) "" (range (js_publishers config))
   ++ tasks_of (Publisher ReqRep) "" (range (reqrep_publishers config))
   ++ with_handle (provisioned (create_key_value env) (key_value env))
        (tasks_of (Publisher KeyValue) (kv_bucket config)
           (range (kv_publishers config)))
   ++ with_handle (provisioned (create_object_store env) (object_store env))
        (tasks_of (Publisher ObjectStore) (obj_bucket config)
           (range (obj_publishers config)))
   ++ (if stats_interval_sec config >? 0 then [(Reporter, "", 0)] else []))%list.

(** No task of the pool has ended by an exception. *)
Definition no_crash (w : World) : Prop := first_crash (pool w) = None.

(** From a state in [P], the result and the state of [m] are in [Q]. *)
Definition ends {A} (P : World -> Prop) (m : M A)
    (Q : result A * World -> Prop) : Prop :=
  forall w, P w -> Q (m w).

(** The line that [main] prints when all tasks are created, before it waits
    for them. *)
Definition is_started_line (e : event) : bool :=
  match e with
  | Print text =>
      (text =? "All publishers started. Press Ctrl+C to stop.")%string
  | _ => false
  end.

Definition not_started (w : World) : Prop :=
  Forall (fun e => is_started_line e = false) (trace w).

(** How a run ends that printed the final summary: the log ends with the
    lines of the summary, computed from the counters at the end, and the
    closing of the connection; the totals line occurs once in the whole
    log; [main] returns, unless the closing raised. *)
Definition summary_printed (env : Env) (r : result ending * World) : Prop :=
  (exists before,
      trace (snd r)
      = (before
         ++ map Print
              (final_stats_lines (stats (snd r)) (finished1 env)
                 (finished2 env))
         ++ [Close])%list
      /\ Forall (fun e => ordinary e = true) before)
  /\ filter is_total_line (trace (snd r))
     = [Print (total_line (stats (snd r)))]
  /\ (fst r = Returns Finished
      \/ exists e, close env = Raises e /\ fst r = Raises e).

(** A run that ended suspended, continued by [next]. *)
Definition and_then (r : result status * World) (next : Z -> M status)
  : result status * World :=
  match r with
  | (Returns (Suspended n), w1) => next n w1
  | _ => r
  end.

(** ** Concrete configurations and environments *)

(** The default configuration with the given numbers of publishers. *)
Definition config_with (normal js reqrep kv obj : Z) : Config := {|
  nats_url := "nats://localhost:4222";
  normal_publishers := normal;
  normal_subject_prefix := "test.normal";
  normal_interval_ms := 1000;
  js_publishers := js;
  js_subject_prefix := "test.js";
  js_stream_name := "TEST";
  js_interval_ms := 1000;
  reqrep_publishers := reqrep;
  reqrep_subject_prefix := "test.service";
  reqrep_interval_ms := 2000;
  reqrep_timeout_ms := 5000;
  kv_publishers := kv;
  kv_bucket := "test-bucket";
  kv_key_prefix := "test-key";
  kv_interval_ms := 1500;
  obj_publishers := obj;
  obj_bucket := "test-objects";
  obj_name_prefix := "test-obj";
  obj_interval_ms := 5000;
  obj_size_bytes := 1024;
  message_size_bytes := 128;
  include_timestamp := true;
  include_sequence := true;
  verbose := false;
  stats_interval_sec := 5
|}.


Definition sample_rng (i : nat) : nat := (7 * i + 3)%nat.

(** An iteration in which the send succeeds, and one in which it fails;
    [signal] tells whether a signal arrives during the sleep. *)
Definition tick_ok (signal : bool) : tick :=
  mkTick (Returns tt) false signal sample_rng "2024-01-01T00:00:00" 15.

Definition tick_failed (e : exn) (signal : bool) : tick :=
  mkTick (Raises e) false signal sample_rng "2024-01-01T00:00:00" 15.

Definition no_stream : exn :=
  Exn OtherException "nats: no response from stream".

Definition jetstream_disabled : exn :=
  Exn OtherException "nats: JetStream not enabled".

Definition at_once (r : result unit) : awaited := mkAwaited [] r.

(** A broker on which every provisioning call succeeds; the event loop
    follows [sched]. *)
Definition healthy_broker (sched : list sched_entry) : Env := {|
  connect := Returns tt;
  add_stream := at_once (Returns tt);
  create_key_value := at_once (Returns tt);
  key_value := at_once (Returns tt);
  create_object_store := at_once (Returns tt);
  object_store := at_once (Returns tt);
  started := 10;
  schedule := sched;
  finished1 := 20;
  finished2 := 20;
  close := Returns tt
|}.

(** A broker without JetStream: the stream cannot be created, and every
    JetStream publish fails.  Two JetStream publishers and the reporter run;
    a signal arrives during the second sleep of the first publisher. *)
Definition broker_without_jetstream : Env := {|
  connect := Returns tt;
  add_stream := at_once (Raises jetstream_disabled);
  create_key_value := at_once (Raises jetstream_disabled);
  key_value := at_once (Raises jetstream_disabled);
  create_object_store := at_once (Raises jetstream_disabled);
  object_store := at_once (Raises jetstream_disabled);
  started := 10;
  schedule :=
    [ Step 0 (tick_failed no_stream false);
      Step 1 (tick_failed no_stream false);
      Step 0 (tick_failed no_stream true);
      Step 1 (tick_failed no_stream false);
      Step 2 (tick_ok false) ];
  finished1 := 20;
  finished2 := 20;
  close := Returns tt
|}.

(** Two normal publishers: one iteration each, then a signal during the
    sleep of the first; the other tasks then find the event set. *)
Definition short_run : list sched_entry :=
  [ Step 0 (tick_ok false);
    Step 1 (tick_ok false);
    Step 2 (tick_ok false);
    Step 0 (tick_ok true);
    Step 1 (tick_ok false);
    Step 2 (tick_ok false) ].

(** ** Further vocabulary: sends, destinations, shutdown *)

(** The broker calls of the publishers. *)
Definition is_send (e : event) : bool :=
  match e with
  | NcPublish _ _ | JsPublish _ _ | NcRequest _ _ _ | KvPut _ _ _
  | ObjPut _ _ _ => true
  | _ => false
  end.


(** The subject, key or object name that a broker call addresses. *)
Definition target_of (e : event) : option string :=
  match e with
  | NcPublish subject _ | JsPublish subject _ | NcRequest subject _ _ =>
      Some subject
  | KvPut _ key _ => Some key
  | ObjPut _ name _ => Some name
  | _ => None
  end.

(** The iterations of a script that a loop entered with the event not set
    performs: all up to and including the first one during which a signal
    arrives. *)
Fixpoint performed (script : list tick) : list tick :=
  match script with
  | [] => []
  | t :: script' =>
      t :: (if signal_in_send t || signal_in_wait t then []
            else performed script')
  end.

(** The iterations numbered from [first]. *)
Fixpoint numbered (script : list tick) (first : Z) : list (Z * tick) :=
  match script with
  | [] => []
  | t :: script' => (first, t) :: numbered script' (first + 1)
  end.

(** The events of the iterations of [ticks], the first one sending with the
    tag [first]. *)
Definition run_events (op : SendOperation) (ticks : list tick) (first : Z)
  : list event :=
  flat_map (fun p => iteration_events op (snd p) (fst p))
    (numbered ticks first).







(** The subject, key or object name of the publisher [publisher_id] of a
    kind. *)
Definition destination (k : kind) (config : Config) (publisher_id : Z)
  : string :=
  match k with
  | Normal => normal_subject_prefix config ++ "." ++ Py.str publisher_id
  | JetStream => js_subject_prefix config ++ "." ++ Py.str publisher_id
  | ReqRep => reqrep_subject_prefix config ++ "." ++ Py.str publisher_id
  | KeyValue => kv_key_prefix config ++ "-" ++ Py.str publisher_id
  | ObjectStore => obj_name_prefix config ++ "-" ++ Py.str publisher_id
  end.

Definition bucket_exists : exn :=
  Exn BadRequestError "nats: BadRequestError: code=400 err_code=10058 description='stream name already in use'".

Definition lookup_failed : exn :=
  Exn OtherException "nats: ServiceUnavailableError: code=503".

(** A broker on which the key-value bucket is reported as existing and its
    lookup fails. *)
Definition broker_with_broken_bucket : Env := {|
  connect := Returns tt;
  add_stream := at_once (Returns tt);
  create_key_value := at_once (Raises bucket_exists);
  key_value := at_once (Raises lookup_failed);
  create_object_store := at_once (Returns tt);
  object_store := at_once (Returns tt);
  started := 10;
  schedule := [];
  finished1 := 20;
  finished2 := 20;
  close := Returns tt
|}.

(** What [ensure_kv_bucket] and [ensure_object_store] give for the answers
    of the broker to the creation and to the lookup of the bucket. *)
Definition handle_of (bucket : string) (create lookup : awaited)
  : result (option string) :=
  match outcome create with
  | Returns _ => Returns (Some bucket)
  | Raises e =>
      if is_bad_request e then
        match outcome lookup with
        | Returns _ => Returns (Some bucket)
        | Raises e' => Raises e'
        end
      else Returns None
  end.

(** The publishers that [main] has created when it comes to the key-value
    bucket. *)
Definition tasks_before_kv (config : Config) : list (role * string * Z) :=
  (tasks_of (Publisher Normal) "" (range (normal_publishers config))
   ++ tasks_of (Publisher JetStream) "" (range (js_publishers config))
   ++ tasks_of (Publisher ReqRep) "" (range (reqrep_publishers config)))%list.


(** * Properties *)

Local Open Scope list_scope.

(** ** Counters *)

Lemma is_counter_In (stat_name : string) :
  is_counter stat_name = true -> In stat_name counter_names.
Proof.
  unfold is_counter, getattr, counter_names.
  repeat match goal with
         | |- context [String.eqb stat_name ?lit] =>
             destruct (String.eqb_spec stat_name lit) as [->|_];
             [intros _; simpl; tauto|]
         end.
  discriminate.
Qed.

Lemma In_is_counter (stat_name : string) :
  In stat_name counter_names -> is_counter stat_name = true.
Proof.
  unfold counter_names; simpl.
  intros H; repeat (destruct H as [<-|H]; [reflexivity|]); contradiction.
Qed.

Ltac counter_cases H :=
  apply is_counter_In in H; unfold counter_names in H; simpl in H;
  repeat (destruct H as [<-|H]); [..|contradiction].

Lemma getattr_counter (s : Stats) (stat_name : string) :
  is_counter stat_name = true -> exists v, getattr s stat_name = Some v.
Proof. intros H; counter_cases H; eexists; reflexivity. Qed.

Lemma increment_bump (s : Stats) (stat_name : string) :
  is_counter stat_name = true ->
  increment s stat_name 1 = Returns (bump stat_name s).
Proof.
  intros H; unfold bump.
  destruct (getattr_counter s stat_name H) as [v Hv].
  unfold increment; rewrite Hv; reflexivity.
Qed.

(** An increment by a positive amount makes the named counter larger by
    that amount and changes no other counter. *)
Lemma increment_getattr (s s' : Stats) (stat_name : string) (amount : Z) :
  is_counter stat_name = true ->
  increment s stat_name amount = Returns s' ->
  (exists v, getattr s stat_name = Some v
             /\ getattr s' stat_name = Some (v + amount))
  /\ (forall other, other <> stat_name -> getattr s' other = getattr s other)
  /\ start_time s' = start_time s.
Proof.
  intros H; destruct s; counter_cases H; cbn; intros [= <-];
    (split; [eexists; split; reflexivity|split; [|reflexivity]]);
    intros other Hne; unfold getattr;
    repeat match goal with
           | |- context [String.eqb other ?lit] =>
               destruct (String.eqb_spec other lit) as [->|_];
               [first [reflexivity | contradiction]|]
           end; reflexivity.
Qed.

Lemma increment_le (s s' : Stats) (stat_name : string) (amount : Z) :
  is_counter stat_name = true -> 0 <= amount ->
  increment s stat_name amount = Returns s' -> stats_le s s'.
Proof.
  intros H Ha; destruct s; counter_cases H; cbn; intros [= <-];
    unfold stats_le; cbn; repeat split; lia.
Qed.

Lemma bump_le (s : Stats) (stat_name : string) :
  is_counter stat_name = true -> stats_le s (bump stat_name s).
Proof.
  intros H; apply (increment_le s _ stat_name 1 H); [lia|].
  apply increment_bump, H.
Qed.

Lemma stats_le_refl (s : Stats) : stats_le s s.
Proof. unfold stats_le; repeat split; lia. Qed.

Lemma stats_le_trans (s1 s2 s3 : Stats) :
  stats_le s1 s2 -> stats_le s2 s3 -> stats_le s1 s3.
Proof.
  unfold stats_le; intros H1 H2.
  repeat match goal with H : _ /\ _ |- _ => destruct H end.
  repeat split; try lia; congruence.
Qed.

(** ** One iteration of the loops *)

Lemma stats_increment_counter (stat_name : string) (w : World) :
  is_counter stat_name = true ->
  stats_increment stat_name w =
  (Returns tt,
   mkWorld (bump stat_name (stats w)) (stop_event w)
     (trace w ++ [StatIncrement stat_name 1]) (pool w)).
Proof.
  intros H; unfold stats_increment; rewrite (increment_bump _ _ H); reflexivity.
Qed.

Ltac run_monad :=
  unfold bind, try_except, broker_call, wait_for_stop, deliver,
    signal_handler, print_if, print, emit, is_set, ret; cbn.

Lemma publisher_loop_stopped (op : SendOperation) script sequence w :
  stop_event w = true ->
  publisher_loop op script sequence w = (Returns Returned, w).
Proof. intros H; destruct script; run_monad; rewrite H; reflexivity. Qed.

Lemma publisher_loop_nil (op : SendOperation) sequence w :
  stop_event w = false ->
  publisher_loop op [] sequence w = (Returns (Suspended sequence), w).
Proof. intros H; run_monad; rewrite H; reflexivity. Qed.

Lemma publisher_loop_cons (op : SendOperation) t script sequence w :
  well_formed op -> stop_event w = false ->
  publisher_loop op (t :: script) sequence w =
  if signal_in_send t || signal_in_wait t
  then (Returns Returned, after_iteration op t sequence w)
  else publisher_loop op script (sequence + 1)
         (after_iteration op t sequence w).
Proof.
  intros [Hs He] Hw.
  unfold after_iteration, iteration_events, counted.
  destruct t as [res s1 s2 rg ut nw]; cbn [publisher_loop send_result
    signal_in_send signal_in_wait rng utcnow now].
  unfold bind at 1. unfold is_set at 1. rewrite Hw.
  destruct res as [[]|e], s1, s2, (logging op) eqn:Hl; run_monad;
    rewrite ?stats_increment_counter by assumption; cbn; rewrite ?Hl, ?Hw; cbn;
    rewrite <- ?app_assoc; cbn; reflexivity.
Qed.

Lemma send_operation_well_formed k handle publisher_id config :
  well_formed (send_operation k handle publisher_id config).
Proof. destruct k; split; reflexivity. Qed.

Lemma loop_of_stopped k handle publisher_id config script sequence w :
  stop_event w = true ->
  loop_of k handle publisher_id config script sequence w
  = (Returns Returned, w).
Proof.
  intros H; destruct k, script; unfold loop_of; run_monad; rewrite H;
    reflexivity.
Qed.

Lemma loop_of_nil k handle publisher_id config sequence w :
  stop_event w = false ->
  loop_of k handle publisher_id config [] sequence w
  = (Returns (Suspended sequence), w).
Proof.
  intros H; destruct k; unfold loop_of; run_monad; rewrite H; reflexivity.
Qed.

Lemma loop_of_cons k handle publisher_id config t script sequence w :
  stop_event w = false ->
  loop_of k handle publisher_id config (t :: script) sequence w =
  let op := send_operation k handle publisher_id config in
  if signal_in_send t || signal_in_wait t
  then (Returns Returned, after_iteration op t (sequence + 1) w)
  else loop_of k handle publisher_id config script (sequence + 1)
         (after_iteration op t (sequence + 1) w).
Proof.
  intros Hw.
  unfold after_iteration, iteration_events, counted.
  destruct t as [res s1 s2 rg ut nw].
  destruct k; unfold loop_of;
    cbn [normal_loop js_loop reqrep_loop kv_loop obj_loop send_result
           signal_in_send signal_in_wait rng utcnow now];
    unfold bind at 1; unfold is_set at 1; rewrite Hw;
    (destruct res as [[]|e], s1, s2, (verbose config) eqn:Hl);
    try destruct (is_timeout e) eqn:Ht;
    run_monad; rewrite ?Hl, ?Hw, ?Ht; cbn; rewrite <- ?app_assoc; cbn;
    rewrite ?Hl, ?Ht; reflexivity.
Qed.

(** Induction over the iterations that a publisher loop performs. *)
Lemma loop_of_ind k handle publisher_id config
    (P : list tick -> Z -> World -> result status * World -> Prop) :
  (forall script sequence w,
      stop_event w = true -> P script sequence w (Returns Returned, w)) ->
  (forall sequence w,
      stop_event w = false -> P [] sequence w (Returns (Suspended sequence), w)) ->
  (forall t script sequence w,
      stop_event w = false ->
      signal_in_send t || signal_in_wait t = true ->
      P (t :: script) sequence w
        (Returns Returned,
         after_iteration (send_operation k handle publisher_id config) t
           (sequence + 1) w)) ->
  (forall t script sequence w r,
      stop_event w = false ->
      signal_in_send t || signal_in_wait t = false ->
      P script (sequence + 1)
        (after_iteration (send_operation k handle publisher_id config) t
           (sequence + 1) w) r ->
      P (t :: script) sequence w r) ->
  forall script sequence w,
    P script sequence w (loop_of k handle publisher_id config script sequence w).
Proof.
  intros Hstop Hnil Hfire Hnext.
  induction script as [|t script IH]; intros sequence w;
    destruct (stop_event w) eqn:Hw.
  - rewrite loop_of_stopped by assumption; auto.
  - rewrite loop_of_nil by assumption; auto.
  - rewrite loop_of_stopped by assumption; auto.
  - rewrite loop_of_cons by assumption; cbv zeta.
    destruct (signal_in_send t || signal_in_wait t) eqn:Hs; auto.
Qed.

Lemma run_publisher_of_loop k handle publisher_id config script w :
  run_publisher_of k handle publisher_id config script w =
  loop_of k handle publisher_id config script 0
    (announced (send_operation k handle publisher_id config) w).
Proof.
  unfold announced.
  destruct k; cbn [send_operation logging log_started];
    unfold run_publisher_of, run_normal_publisher, run_js_publisher,
      run_reqrep_publisher, run_kv_publisher, run_obj_publisher, loop_of;
    cbv zeta; unfold bind at 1;
    destruct (verbose config); reflexivity.
Qed.

Lemma run_publisher_loop op script w :
  run_publisher op script w = publisher_loop op script 1 (announced op w).
Proof.
  unfold run_publisher, announced, bind at 1.
  destruct (logging op); reflexivity.
Qed.

(** ** The five loops are one loop *)

Lemma loop_of_publisher_loop k handle publisher_id config script sequence w :
  behaviour (loop_of k handle publisher_id config script sequence w) =
  behaviour
    (publisher_loop (send_operation k handle publisher_id config) script
       (sequence + 1) w).
Proof.
  pose proof (send_operation_well_formed k handle publisher_id config) as Hwf.
  revert script sequence w.
  apply (loop_of_ind k handle publisher_id config
           (fun script sequence w r =>
              behaviour r =
              behaviour
                (publisher_loop (send_operation k handle publisher_id config)
                   script (sequence + 1) w))).
  - intros script sequence w Hw.
    rewrite publisher_loop_stopped by assumption; reflexivity.
  - intros sequence w Hw.
    rewrite publisher_loop_nil by assumption; reflexivity.
  - intros t script sequence w Hw Hs.
    rewrite publisher_loop_cons, Hs by assumption; reflexivity.
  - intros t script sequence w r Hw Hs IH.
    rewrite publisher_loop_cons, Hs by assumption; exact IH.
Qed.

(** C8.  The specification's shared loop driver, instantiated with the send
    operation of a kind, behaves as the run function of that kind in the
    program: for each of the five kinds, on every script of the environment
    and from every state, both leave the same state of the process (counters,
    event log with every broker call, payload, counter increment and wait,
    the shutdown flag) and end the same way. *)
Theorem publishers_share_one_loop k handle publisher_id config script w :
  behaviour
    (run_publisher (send_operation k handle publisher_id config) script w) =
  behaviour (run_publisher_of k handle publisher_id config script w).
Proof.
  rewrite run_publisher_loop, run_publisher_of_loop.
  symmetry; apply (loop_of_publisher_loop k handle publisher_id config script 0).
Qed.

(** ** Failing sends *)

Lemma counted_failed k handle publisher_id config t e :
  send_result t = Raises e ->
  counted (send_operation k handle publisher_id config) t = errors_of k.
Proof. intros H; unfold counted; rewrite H; destruct k; reflexivity. Qed.

Lemma counted_sent k handle publisher_id config t u :
  send_result t = Returns u ->
  counted (send_operation k handle publisher_id config) t = sent_of k.
Proof. intros H; unfold counted; rewrite H; destruct k; reflexivity. Qed.

Lemma errors_of_counter k : is_counter (errors_of k) = true.
Proof. destruct k; reflexivity. Qed.

Lemma sent_of_counter k : is_counter (sent_of k) = true.
Proof. destruct k; reflexivity. Qed.

Lemma counted_counter k handle publisher_id config t :
  is_counter (counted (send_operation k handle publisher_id config) t) = true.
Proof. unfold counted; destruct (send_result t), k; reflexivity. Qed.

(** A loop whose sends all fail, with no signal, is still looping after any
    number of iterations and has only counted errors. *)
Lemma failing_loop_keeps_looping k handle publisher_id config script :
  Forall send_fails script -> Forall no_signal script ->
  forall sequence w,
    stop_event w = false ->
    exists w',
      loop_of k handle publisher_id config script sequence w
      = (Returns (Suspended (sequence + Z.of_nat (List.length script))), w')
      /\ stop_event w' = false
      /\ (forall v, getattr (stats w) (errors_of k) = Some v ->
                    getattr (stats w') (errors_of k)
                    = Some (v + Z.of_nat (List.length script)))
      /\ (forall other, other <> errors_of k ->
                        getattr (stats w') other = getattr (stats w) other).
Proof.
  induction script as [|t script IH]; intros Hf Hn sequence w Hw.
  - exists w; rewrite loop_of_nil by assumption; cbn [List.length Z.of_nat].
    rewrite Z.add_0_r; repeat split; auto.
    intros v Hv; rewrite Z.add_0_r; exact Hv.
  - inversion Hf as [|? ? [e He] Hf']; inversion Hn as [|? ? [Hs1 Hs2] Hn'];
      subst.
    rewrite loop_of_cons by assumption; cbv zeta.
    rewrite Hs1, Hs2; cbn [orb].
    set (w1 := after_iteration _ t (sequence + 1) w).
    assert (Hw1 : stop_event w1 = false)
      by (unfold w1, after_iteration; cbn; rewrite Hs1, Hs2; reflexivity).
    destruct (IH Hf' Hn' (sequence + 1) w1 Hw1) as (w' & Hrun & Hstop & Herr & Hoth).
    pose proof (increment_getattr (stats w) (stats w1) (errors_of k) 1
                  (errors_of_counter k)) as Hinc.
    assert (Hb : increment (stats w) (errors_of k) 1 = Returns (stats w1)).
    { unfold w1, after_iteration; cbn [stats].
      rewrite (counted_failed _ _ _ _ _ _ He).
      apply increment_bump, errors_of_counter. }
    destruct (Hinc Hb) as ((v0 & Hv0 & Hv1) & Hother & _).
    exists w'; repeat split; auto.
    + rewrite Hrun; do 3 f_equal. cbn [List.length]. lia.
    + intros v Hv. rewrite Hv in Hv0; injection Hv0 as <-.
      rewrite (Herr _ Hv1). f_equal. cbn [List.length]. lia.
    + intros other Hne. rewrite (Hoth _ Hne). apply Hother, Hne.
Qed.

(** C3.  Let [t] be an iteration of a publisher of any kind in which the
    send raises, entered with the shutdown event not set.  Then exactly the
    kind's error counter is incremented by 1 (the state after the iteration
    is the one before with that counter one higher, so the sent counter and
    every other counter are unchanged), and unless a signal arrived during
    the iteration the loop goes on with the rest of the script.  And a
    publisher all of whose sends fail, with no signal, never returns: after
    any number [n] of iterations it is still in its loop, its error counter
    is [n] higher and every other counter is as before. *)
Theorem failed_send_counts_error_and_continues
    k handle publisher_id config t rest sequence script w e :
  stop_event w = false ->
  send_result t = Raises e ->
  Forall send_fails script ->
  Forall no_signal script ->
  (exists w1,
      increment (stats w) (errors_of k) 1 = Returns (stats w1)
      /\ getattr (stats w1) (sent_of k) = getattr (stats w) (sent_of k)
      /\ loop_of k handle publisher_id config (t :: rest) sequence w
         = if signal_in_send t || signal_in_wait t
           then (Returns Returned, w1)
           else loop_of k handle publisher_id config rest (sequence + 1) w1)
  /\ (exists w',
         run_publisher_of k handle publisher_id config script w
         = (Returns (Suspended (Z.of_nat (List.length script))), w')
         /\ stop_event w' = false
         /\ (forall v, getattr (stats w) (errors_of k) = Some v ->
                       getattr (stats w') (errors_of k)
                       = Some (v + Z.of_nat (List.length script)))
         /\ (forall other, other <> errors_of k ->
                           getattr (stats w') other = getattr (stats w) other)).
Proof.
  intros Hw He Hf Hn; split.
  - exists (after_iteration (send_operation k handle publisher_id config) t
              (sequence + 1) w).
    assert (Hb : increment (stats w) (errors_of k) 1
                 = Returns (stats (after_iteration
                     (send_operation k handle publisher_id config) t
                     (sequence + 1) w))).
    { unfold after_iteration; cbn [stats].
      rewrite (counted_failed _ _ _ _ _ _ He).
      apply increment_bump, errors_of_counter. }
    split; [exact Hb|split].
    + destruct (increment_getattr _ _ _ _ (errors_of_counter k) Hb)
        as (_ & Hother & _).
      apply Hother. destruct k; discriminate.
    + rewrite loop_of_cons by assumption; reflexivity.
  - rewrite run_publisher_of_loop.
    set (w0 := announced _ w).
    assert (Hw0 : stop_event w0 = false)
      by (unfold w0, announced; destruct (logging _); assumption).
    destruct (failing_loop_keeps_looping k handle publisher_id config script
                Hf Hn 0 w0 Hw0) as (w' & Hrun & Hstop & Herr & Hoth).
    assert (Hs0 : stats w0 = stats w)
      by (unfold w0, announced; destruct (logging _); reflexivity).
    rewrite Hs0 in Herr, Hoth.
    exists w'; repeat split; auto.
Qed.

(** ** The events of a publisher *)

Lemma replay_app (evs1 evs2 : list event) s :
  replay (evs1 ++ evs2)%list s = replay evs2 (replay evs1 s).
Proof. unfold replay; apply fold_left_app. Qed.

Lemma new_events_app w w' (evs : list event) :
  trace w' = (trace w ++ evs)%list -> new_events w w' = evs.
Proof.
  intros H; unfold new_events; rewrite H.
  rewrite skipn_app, skipn_all, Nat.sub_diag; reflexivity.
Qed.

Lemma iteration_events_replay k handle publisher_id config t sequence s :
  replay (iteration_events (send_operation k handle publisher_id config) t
            sequence) s
  = bump (counted (send_operation k handle publisher_id config) t) s.
Proof.
  unfold iteration_events.
  destruct k, (signal_in_send t), (signal_in_wait t), (verbose config) eqn:Hv;
    cbn; rewrite ?Hv; reflexivity.
Qed.

Lemma iteration_events_task k handle publisher_id config t sequence :
  Forall (fun e => task_event e = true)
    (iteration_events (send_operation k handle publisher_id config) t
       sequence).
Proof.
  unfold iteration_events, counted.
  destruct k, (signal_in_send t), (signal_in_wait t), (verbose config) eqn:Hv,
    (send_result t) as [u|e];
    cbn [send_operation logging log_sent log_error send_call sent_counter
           error_counter send_interval app];
    rewrite ?Hv; try destruct (is_timeout e);
    repeat (constructor; [reflexivity|]); constructor.
Qed.

(** An iteration ends with its wait, and nothing before it is a wait. *)
Lemma iteration_events_wait k handle publisher_id config t sequence :
  exists front,
    iteration_events (send_operation k handle publisher_id config) t sequence
    = front
      ++ [WaitFor (send_interval (send_operation k handle publisher_id config))
            (signal_in_send t || signal_in_wait t)]
    /\ Forall (fun e => is_fired_wait e = false) front.
Proof.
  unfold iteration_events.
  eexists; split.
  - rewrite !app_assoc; reflexivity.
  - destruct k, (signal_in_send t), (signal_in_wait t), (verbose config) eqn:Hv;
      cbn [send_operation logging log_sent log_error send_call sent_counter
             error_counter send_interval app];
      rewrite ?Hv; repeat (constructor; [reflexivity|]); constructor.
Qed.

Lemma no_fired_wait_inside (evs pre post : list event) (e : event) :
  Forall (fun e => is_fired_wait e = false) evs ->
  evs = pre ++ e :: post -> is_fired_wait e = true -> False.
Proof.
  intros Hq -> He.
  apply Forall_app in Hq as [_ Hq]; inversion Hq; congruence.
Qed.

Lemma fired_wait_is_last (front pre post : list event) (x e : event) :
  Forall (fun e => is_fired_wait e = false) front ->
  front ++ [x] = pre ++ e :: post -> is_fired_wait e = true -> post = [].
Proof.
  revert pre; induction front as [|a front IH]; intros pre Hq Heq He.
  - destruct pre as [|b pre]; cbn in Heq.
    + injection Heq as _ <-; reflexivity.
    + injection Heq as _ Heq; destruct pre; discriminate.
  - inversion Hq as [|? ? Ha Hq']; subst.
    destruct pre as [|b pre]; cbn in Heq.
    + injection Heq as -> _; congruence.
    + injection Heq as _ Heq; eauto.
Qed.

(** What a run of a publisher loop does to the process: it never raises, it
    leaves the task pool alone, it appends task events to the log, the
    counters move exactly by the increments in these events, a wait that
    returned is the last event, and the loop returns only with the event
    set. *)
Lemma loop_of_events k handle publisher_id config script sequence w :
  exists evs st stop',
    loop_of k handle publisher_id config script sequence w
    = (Returns st,
       mkWorld (replay evs (stats w)) stop' (trace w ++ evs) (pool w))
    /\ Forall (fun e => task_event e = true) evs
    /\ (Forall (fun e => is_fired_wait e = false) evs
        \/ exists front q,
             evs = front ++ [WaitFor q true]
             /\ Forall (fun e => is_fired_wait e = false) front
             /\ st = Returned)
    /\ (st = Returned -> stop' = true)
    /\ (forall n, st = Suspended n -> stop' = false).
Proof.
  revert script sequence w.
  apply (loop_of_ind k handle publisher_id config
           (fun script sequence w r =>
              exists evs st stop',
                r = (Returns st,
                     mkWorld (replay evs (stats w)) stop' (trace w ++ evs)
                       (pool w))
                /\ Forall (fun e => task_event e = true) evs
                /\ (Forall (fun e => is_fired_wait e = false) evs
                    \/ exists front q,
                         evs = front ++ [WaitFor q true]
                         /\ Forall (fun e => is_fired_wait e = false) front
                         /\ st = Returned)
                /\ (st = Returned -> stop' = true)
                /\ (forall n, st = Suspended n -> stop' = false))).
  - intros script sequence w Hw.
    exists [], Returned, true; rewrite app_nil_r.
    destruct w; cbn in *; subst; repeat split; auto; discriminate.
  - intros sequence w Hw.
    exists [], (Suspended sequence), false; rewrite app_nil_r.
    destruct w; cbn in *; subst; repeat split; auto; discriminate.
  - intros t script sequence w Hw Hs.
    destruct (iteration_events_wait k handle publisher_id config t
                (sequence + 1)) as (front & Hie & Hfront).
    exists (iteration_events (send_operation k handle publisher_id config) t
              (sequence + 1)), Returned, true.
    unfold after_iteration; rewrite Hs, iteration_events_replay.
    repeat split; auto using iteration_events_task; try discriminate.
    right; exists front; eexists; rewrite Hie, Hs; auto.
  - intros t script sequence w r Hw Hs
      (evs & st & stop' & -> & Htask & Hshape & Hret & Hsus).
    destruct (iteration_events_wait k handle publisher_id config t
                (sequence + 1)) as (front & Hie & Hfront).
    exists (iteration_events (send_operation k handle publisher_id config) t
              (sequence + 1) ++ evs), st, stop'.
    unfold after_iteration; cbn [stats trace pool].
    rewrite replay_app, iteration_events_replay, app_assoc.
    assert (Hquiet : Forall (fun e => is_fired_wait e = false)
              (iteration_events
                 (send_operation k handle publisher_id config) t
                 (sequence + 1))).
    { rewrite Hie, Hs; apply Forall_app; split; [exact Hfront|].
      constructor; [reflexivity|constructor]. }
    repeat split; auto.
    + apply Forall_app; split; auto using iteration_events_task.
    + destruct Hshape as [Hq|(front' & q & -> & Hq & ->)].
      * left; apply Forall_app; auto.
      * right; eexists; exists q; rewrite app_assoc; repeat split.
        apply Forall_app; auto.
Qed.

Lemma run_publisher_of_events k handle publisher_id config script w :
  exists evs st stop',
    run_publisher_of k handle publisher_id config script w
    = (Returns st,
       mkWorld (replay evs (stats w)) stop' (trace w ++ evs) (pool w))
    /\ Forall (fun e => task_event e = true) evs
    /\ (Forall (fun e => is_fired_wait e = false) evs
        \/ exists front q,
             evs = front ++ [WaitFor q true]
             /\ Forall (fun e => is_fired_wait e = false) front
             /\ st = Returned)
    /\ (st = Returned -> stop' = true)
    /\ (forall n, st = Suspended n -> stop' = false).
Proof.
  rewrite run_publisher_of_loop.
  destruct (loop_of_events k handle publisher_id config script 0
              (announced (send_operation k handle publisher_id config) w))
    as (evs & st & stop' & Hrun & Htask & Hshape & Hret & Hsus).
  rewrite Hrun; unfold announced.
  destruct (logging (send_operation k handle publisher_id config)) eqn:Hl;
    cbn [stats trace pool].
  - exists (Print (log_started (send_operation k handle publisher_id config))
              :: evs), st, stop'.
    rewrite <- app_assoc; cbn [app].
    repeat split; auto.
    + constructor; [destruct k; reflexivity|exact Htask].
    + destruct Hshape as [Hq|(front & q & -> & Hq & ->)].
      * left; constructor; [reflexivity|exact Hq].
      * right; eexists (_ :: front), q; repeat split.
        constructor; [reflexivity|exact Hq].
  - exists evs, st, stop'; repeat split; auto.
Qed.

(** C6.  In every run of a publisher of any kind, a wait on the shutdown
    event that returned (fired) is the last thing the task does: no event
    follows it in the log (no send, no counter increment, no further wait),
    the counters are exactly those that the increments logged before it
    give, and the task has returned. *)
Theorem publisher_exits_at_fired_wait
    k handle publisher_id config script w :
  let r := run_publisher_of k handle publisher_id config script w in
  let evs := new_events w (snd r) in
  trace (snd r) = trace w ++ evs
  /\ stats (snd r) = replay evs (stats w)
  /\ forall pre q post,
       evs = pre ++ WaitFor q true :: post ->
       post = [] /\ fst r = Returns Returned.
Proof.
  cbv zeta.
  destruct (run_publisher_of_events k handle publisher_id config script w)
    as (evs & st & stop' & Hrun & _ & Hshape & _).
  rewrite Hrun; cbn [fst snd trace stats].
  rewrite (new_events_app w _ evs) by reflexivity.
  repeat split; auto.
  - destruct Hshape as [Hq|(front & q' & -> & Hq & ->)].
    + exfalso; eapply no_fired_wait_inside; eauto.
    + eapply fired_wait_is_last; eauto.
  - destruct Hshape as [Hq|(front & q' & -> & Hq & ->)].
    + exfalso; eapply no_fired_wait_inside; eauto.
    + reflexivity.
Qed.

(** ** The statistics reporter *)

Lemma stats_reporter_stopped config script w :
  stop_event w = true -> stats_reporter config script w = (Returns Returned, w).
Proof. intros H; destruct script; run_monad; rewrite H; reflexivity. Qed.

Lemma stats_reporter_nil config w :
  stop_event w = false ->
  stats_reporter config [] w = (Returns (Suspended 0), w).
Proof. intros H; run_monad; rewrite H; reflexivity. Qed.

Lemma stats_reporter_cons config t script w :
  stop_event w = false ->
  stats_reporter config (t :: script) w =
  if signal_in_wait t
  then (Returns Returned,
        mkWorld (stats w) true
          (trace w
           ++ [shutdown_notice;
               WaitFor (inject_Z (stats_interval_sec config)) true])
          (pool w))
  else stats_reporter config script
         (mkWorld (stats w) false
            (trace w
             ++ [WaitFor (inject_Z (stats_interval_sec config)) false;
                 Print (stats_line (stats w) (now t))])
            (pool w)).
Proof.
  intros Hw.
  cbn [stats_reporter]; unfold bind at 1; unfold is_set at 1; rewrite Hw.
  destruct (signal_in_wait t) eqn:Hs; run_monad; rewrite ?Hs, ?Hw; cbn;
    rewrite ?Hw; cbn; rewrite <- ?app_assoc; reflexivity.
Qed.

(** Over a whole run the reporter prints as many lines as waits timed out. *)
Lemma stats_reporter_lines config script w :
  exists evs,
    trace (snd (stats_reporter config script w)) = trace w ++ evs
    /\ List.length (filter is_stats_line evs)
       = List.length (filter is_timed_out_wait evs).
Proof.
  revert w; induction script as [|t script IH]; intros w;
    destruct (stop_event w) eqn:Hw.
  - rewrite stats_reporter_stopped by assumption; exists [].
    rewrite app_nil_r; auto.
  - rewrite stats_reporter_nil by assumption; exists [].
    rewrite app_nil_r; auto.
  - rewrite stats_reporter_stopped by assumption; exists [].
    rewrite app_nil_r; auto.
  - rewrite stats_reporter_cons by assumption.
    destruct (signal_in_wait t).
    + eexists; split; [reflexivity|reflexivity].
    + match goal with |- context [stats_reporter config script ?w1] =>
        destruct (IH w1) as (evs & Htr & Hn)
      end.
      cbn [trace] in Htr; rewrite Htr, <- app_assoc.
      eexists; split; [reflexivity|].
      cbn [app filter is_stats_line is_timed_out_wait stats_line prefix
             append List.length].
      destruct (ascii_dec "S" "S"); [|contradiction].
      cbn; rewrite Hn; reflexivity.
Qed.

(** C9 (as the program has it).  In every iteration of the reporter entered
    with the shutdown event not set: if the wait times out, the reporter
    prints exactly one line, the one built from the counters and the clock
    at that moment (the five sent counters, their total and the rate), and
    goes on; if the signal arrives during the wait, the wait returns and the
    reporter returns without printing a line of statistics.  Over the whole
    run it has printed as many lines as waits have timed out. *)
Theorem reporter_prints_on_timeout_only config t script w :
  stop_event w = false ->
  stats_reporter config (t :: script) w
  = (if signal_in_wait t
     then (Returns Returned,
           mkWorld (stats w) true
             (trace w
              ++ [shutdown_notice;
                  WaitFor (inject_Z (stats_interval_sec config)) true])
             (pool w))
     else stats_reporter config script
            (mkWorld (stats w) false
               (trace w
                ++ [WaitFor (inject_Z (stats_interval_sec config)) false;
                    Print (stats_line (stats w) (now t))])
               (pool w)))
  /\ (let evs :=
        new_events w (snd (stats_reporter config (t :: script) w)) in
      List.length (filter is_stats_line evs)
      = List.length (filter is_timed_out_wait evs)).
Proof.
  intros Hw; split; [apply stats_reporter_cons, Hw|].
  destruct (stats_reporter_lines config (t :: script) w) as (evs & Htr & Hn).
  cbv zeta; rewrite (new_events_app _ _ evs Htr); exact Hn.
Qed.

Lemma stats_line_task s now : task_event (Print (stats_line s now)) = true.
Proof. reflexivity. Qed.

Lemma stats_reporter_events config script w :
  exists evs st stop',
    stats_reporter config script w
    = (Returns st, mkWorld (stats w) stop' (trace w ++ evs) (pool w))
    /\ Forall (fun e => task_event e = true) evs
    /\ (forall s, replay evs s = s)
    /\ (st = Returned -> stop' = true)
    /\ (forall n, st = Suspended n -> stop' = false).
Proof.
  revert w; induction script as [|t script IH]; intros w;
    destruct (stop_event w) eqn:Hw.
  - rewrite stats_reporter_stopped by assumption.
    exists [], Returned, true; rewrite app_nil_r; destruct w; cbn in *; subst.
    repeat split; auto; discriminate.
  - rewrite stats_reporter_nil by assumption.
    exists [], (Suspended 0), false; rewrite app_nil_r; destruct w; cbn in *;
      subst. repeat split; auto; discriminate.
  - rewrite stats_reporter_stopped by assumption.
    exists [], Returned, true; rewrite app_nil_r; destruct w; cbn in *; subst.
    repeat split; auto; discriminate.
  - rewrite stats_reporter_cons by assumption.
    destruct (signal_in_wait t).
    + eexists _, Returned, true; repeat split; auto; discriminate.
    + match goal with |- context [stats_reporter config script ?w1] =>
        destruct (IH w1) as (evs & st & stop' & -> & Htask & Hrep & Hret & Hsus)
      end.
      cbn [stats trace pool].
      eexists (_ :: _ :: evs), st, stop'; rewrite <- app_assoc; cbn [app].
      repeat split; auto.
Qed.

(** ** The event loop *)

Lemma task_event_unit e : task_event e = true -> unit_increment e = true.
Proof. destruct e; cbn; auto. Qed.

Lemma replay_unit_le evs s :
  Forall (fun e => unit_increment e = true) evs -> stats_le s (replay evs s).
Proof.
  intros H; revert s; induction H as [|e evs He _ IH]; intros s.
  - apply stats_le_refl.
  - change (replay (e :: evs) s) with (replay ([e] ++ evs) s).
    rewrite replay_app.
    eapply stats_le_trans; [|apply IH].
    destruct e; try apply stats_le_refl.
    cbn in He; apply andb_prop in He as [Hc Ha].
    apply Z.eqb_eq in Ha; subst amount.
    change (replay [StatIncrement stat_name 1] s) with (bump stat_name s).
    apply bump_le, Hc.
Qed.

Lemma replay_le evs s :
  Forall (fun e => task_event e = true) evs -> stats_le s (replay evs s).
Proof.
  intros H; apply replay_unit_le.
  eapply Forall_impl; [|exact H]; apply task_event_unit.
Qed.

Lemma resume_events tk script w :
  (forall e, task_state_of tk <> Crashed e) ->
  exists evs st stop',
    resume tk script w
    = (Returns st,
       mkWorld (replay evs (stats w)) stop' (trace w ++ evs) (pool w))
    /\ Forall (fun e => task_event e = true) evs
    /\ (st = Returned -> task_state_of tk <> Done -> stop' = true)
    /\ (forall n, st = Suspended n -> stop' = false).
Proof.
  intros Hc; unfold resume.
  destruct (task_state_of tk) as [|sequence| |e] eqn:Hst,
    (task_role tk) as [k|].
  - destruct (run_publisher_of_events k (task_handle tk) (task_id tk)
                (task_config tk) script w)
      as (evs & st & stop' & -> & Htask & _ & Hret & Hsus).
    exists evs, st, stop'; auto.
  - destruct (stats_reporter_events (task_config tk) script w)
      as (evs & st & stop' & -> & Htask & Hrep & Hret & Hsus).
    exists evs, st, stop'; rewrite Hrep; auto.
  - destruct (loop_of_events k (task_handle tk) (task_id tk)
                (task_config tk) script sequence w)
      as (evs & st & stop' & -> & Htask & _ & Hret & Hsus).
    exists evs, st, stop'; auto.
  - destruct (stats_reporter_events (task_config tk) script w)
      as (evs & st & stop' & -> & Htask & Hrep & Hret & Hsus).
    exists evs, st, stop'; rewrite Hrep; auto.
  - exists [], Returned, (stop_event w); rewrite app_nil_r; destruct w.
    repeat split; auto; discriminate.
  - exists [], Returned, (stop_event w); rewrite app_nil_r; destruct w.
    repeat split; auto; discriminate.
  - exfalso; eapply Hc; reflexivity.
  - exfalso; eapply Hc; reflexivity.
Qed.

Lemma update_identity (l : list task) i tk st :
  nth_error l i = Some tk ->
  map identity (update l i (set_state tk st)) = map identity l.
Proof.
  revert i; induction l as [|x l IH]; intros [|i] H; cbn in *;
    try discriminate.
  - injection H as ->; reflexivity.
  - f_equal; auto.
Qed.

Lemma first_crash_None (l : list task) :
  first_crash l = None
  <-> Forall (fun tk => forall e, task_state_of tk <> Crashed e) l.
Proof.
  unfold first_crash; induction l as [|x l IH]; cbn [find].
  - split; auto.
  - destruct (task_state_of x) eqn:Hx.
    1-3: rewrite IH; split;
      [intros H; constructor; [rewrite Hx; discriminate|exact H]
      |intros H; inversion H; assumption].
    rewrite Hx; split; [discriminate|].
    intros H; inversion H as [|? ? Hc _]; exfalso; eapply Hc, Hx.
Qed.

Lemma first_crash_update (l : list task) i tk st :
  (forall e, st <> Crashed e) ->
  first_crash l = None -> first_crash (update l i (set_state tk st)) = None.
Proof.
  intros Hst; rewrite !first_crash_None.
  revert i; induction l as [|x l IH]; intros i H; [constructor|].
  inversion H; subst; destruct i; cbn [update]; constructor; auto.
Qed.

(** A turn of the event loop never raises, appends task events to the log,
    moves the counters by the increments among them and keeps the tasks of
    the pool (only the state of the task that ran changes, and it does not
    become [Crashed]). *)
Lemma step_events e w :
  exists evs stop' pool',
    step e w
    = (Returns tt, mkWorld (replay evs (stats w)) stop' (trace w ++ evs) pool')
    /\ Forall (fun e => task_event e = true) evs
    /\ map identity pool' = map identity (pool w)
    /\ (first_crash (pool w) = None -> first_crash pool' = None).
Proof.
  destruct e as [|i t]; cbn [step].
  - exists [shutdown_notice], true, (pool w); repeat split; auto.
  - destruct (nth_error (pool w) i) as [tk|] eqn:Hnth.
    2:{ exists [], (stop_event w), (pool w); rewrite app_nil_r; destruct w;
        repeat split; auto. }
    assert (Hskip : exists evs stop' pool',
               (Returns tt, w)
               = (Returns tt,
                  mkWorld (replay evs (stats w)) stop' (trace w ++ evs) pool')
               /\ Forall (fun e => task_event e = true) evs
               /\ map identity pool' = map identity (pool w)
               /\ (first_crash (pool w) = None -> first_crash pool' = None)).
    { exists [], (stop_event w), (pool w); rewrite app_nil_r; destruct w;
        repeat split; auto. }
    destruct (task_state_of tk) eqn:Hst; try exact Hskip.
    + destruct (resume_events tk [t] w)
        as (evs & st & stop' & -> & Htask & _); [rewrite Hst; discriminate|].
      cbn [stats stop_event trace pool].
      eexists evs, stop', _; repeat split; auto.
      * apply update_identity, Hnth.
      * apply first_crash_update; destruct st; discriminate.
    + destruct (resume_events tk [t] w)
        as (evs & st & stop' & -> & Htask & _); [rewrite Hst; discriminate|].
      cbn [stats stop_event trace pool].
      eexists evs, stop', _; repeat split; auto.
      * apply update_identity, Hnth.
      * apply first_crash_update; destruct st; discriminate.
Qed.

Lemma run_tasks_events sched w :
  exists evs stop' pool',
    run_tasks sched w
    = (Returns tt, mkWorld (replay evs (stats w)) stop' (trace w ++ evs) pool')
    /\ Forall (fun e => task_event e = true) evs
    /\ map identity pool' = map identity (pool w)
    /\ (first_crash (pool w) = None -> first_crash pool' = None).
Proof.
  revert w; induction sched as [|e sched IH]; intros w.
  - exists [], (stop_event w), (pool w); rewrite app_nil_r; destruct w;
      repeat split; auto.
  - cbn [run_tasks]; unfold bind.
    destruct (step_events e w) as (evs1 & stop1 & pool1 & -> & Ht1 & Hp1 & Hc1).
    match goal with |- context [run_tasks sched ?w1] =>
      destruct (IH w1) as (evs2 & stop2 & pool2 & -> & Ht2 & Hp2 & Hc2)
    end.
    cbn [stats stop_event trace pool] in *.
    exists (evs1 ++ evs2), stop2, pool2.
    rewrite replay_app, app_assoc; repeat split; auto.
    + apply Forall_app; auto.
    + congruence.
Qed.

(** No task ever ends by an exception, so [gather] never raises. *)
Lemma gather_returns sched w :
  first_crash (pool w) = None -> exists b, fst (gather sched w) = Returns b.
Proof.
  revert w; induction sched as [|e sched IH]; intros w Hc; cbn [gather];
    rewrite Hc; destruct (forallb is_done (pool w)).
  - eexists; reflexivity.
  - eexists; reflexivity.
  - eexists; reflexivity.
  - unfold bind.
    destruct (step_events e w) as (evs & stop' & pool' & -> & _ & _ & Hc').
    apply IH, Hc', Hc.
Qed.


(** ** Counters only grow *)

Lemma loop_of_single_stats k handle publisher_id config t sequence w :
  stats (snd (loop_of k handle publisher_id config [t] sequence w)) =
  if stop_event w then stats w
  else bump (counted (send_operation k handle publisher_id config) t) (stats w).
Proof.
  destruct (stop_event w) eqn:Hw.
  - rewrite loop_of_stopped by assumption; reflexivity.
  - rewrite loop_of_cons by assumption; cbv zeta.
    destruct (signal_in_send t || signal_in_wait t) eqn:Hs; [reflexivity|].
    rewrite loop_of_nil; [reflexivity|].
    unfold after_iteration; cbn [stop_event]; exact Hs.
Qed.

Lemma resume_single_stats tk t w :
  let w' := snd (resume tk [t] w) in
  stats w' = stats w
  \/ exists stat_name,
       is_counter stat_name = true
       /\ increment (stats w) stat_name 1 = Returns (stats w').
Proof.
  cbv zeta; unfold resume.
  assert (Hrep : stats (snd (stats_reporter (task_config tk) [t] w)) = stats w).
  { destruct (stats_reporter_events (task_config tk) [t] w)
      as (evs & st & stop' & -> & _); reflexivity. }
  assert (Hloop : forall k sequence w0,
             stats w0 = stats w -> stop_event w0 = stop_event w ->
             let w' := snd (loop_of k (task_handle tk) (task_id tk)
                              (task_config tk) [t] sequence w0) in
             stats w' = stats w
             \/ exists stat_name,
                  is_counter stat_name = true
                  /\ increment (stats w) stat_name 1 = Returns (stats w')).
  { intros k sequence w0 Hs Hstop; cbv zeta.
    rewrite loop_of_single_stats, Hs, Hstop.
    destruct (stop_event w); [left; reflexivity|right].
    eexists; split; [apply counted_counter|].
    apply increment_bump, counted_counter. }
  destruct (task_state_of tk), (task_role tk); auto.
  rewrite run_publisher_of_loop; apply Hloop;
    unfold announced; destruct (logging _); reflexivity.
Qed.

Lemma step_single_increment e w :
  let w' := snd (step e w) in
  stats w' = stats w
  \/ exists stat_name,
       is_counter stat_name = true
       /\ increment (stats w) stat_name 1 = Returns (stats w').
Proof.
  cbv zeta; destruct e as [|i t]; cbn [step]; [left; reflexivity|].
  destruct (nth_error (pool w) i) as [tk|]; [|left; reflexivity].
  pose proof (resume_single_stats tk t w) as H; cbv zeta in H.
  destruct (task_state_of tk); try (left; reflexivity);
    destruct (resume tk [t] w) as [r w']; exact H.
Qed.



(** ** The rate *)

Lemma positive_not_zero (x : float) :
  ((x =? 0)%float = true -> (0 <? x)%float = false)
  /\ ((x <? 0)%float = true -> (0 <? x)%float = false).
Proof.
  rewrite eqb_spec, !ltb_spec.
  change (Prim2SF 0) with (S754_zero false).
  destruct (Prim2SF x) as [sx|sx| |sx m e]; cbn; split; try reflexivity;
    destruct sx; intros H; try reflexivity; discriminate.
Qed.

(** C5 (as the program has it).  With [elapsed] the binary64 difference of
    the clock and the start time: when [elapsed] is positive, [rate] is the
    binary64 quotient of the total of the five sent counters, converted to a
    float, by [elapsed] (and it raises [OverflowError] when the total is
    beyond the range of the floats); when [elapsed] is zero, negative (the
    clock may have been set back since the start) or not a number, [rate] is
    0. *)
Theorem rate_is_total_over_positive_elapsed (s : Stats) (now : float) :
  let elapsed := (now - start_time s)%float in
  let total :=
    normal_sent s + js_sent s + reqrep_sent s + kv_sent s + obj_sent s in
  ((0 <? elapsed)%float = true ->
   rate s now = match float_of_int total with
                | Some t => Returns (t / elapsed)%float
                | None => Raises overflow_error
                end)
  /\ ((elapsed =? 0)%float = true -> rate s now = Returns 0%float)
  /\ ((elapsed <? 0)%float = true -> rate s now = Returns 0%float)
  /\ ((0 <? elapsed)%float = false -> rate s now = Returns 0%float).
Proof.
  cbv zeta; unfold rate, total_sent; cbv zeta.
  destruct (positive_not_zero (now - start_time s)) as [Hzero Hneg].
  split; [|split; [|split]].
  - intros H; rewrite H; reflexivity.
  - intros H; rewrite (Hzero H); reflexivity.
  - intros H; rewrite (Hneg H); reflexivity.
  - intros H; rewrite H; reflexivity.
Qed.

(** ** Message payloads *)










(** ** The orchestrator *)

Lemma keeps_bind {A B} I (m : M A) (k : A -> M B) :
  keeps I m -> (forall a, keeps I (k a)) -> keeps I (bind m k).
Proof.
  intros Hm Hk w Hw; unfold bind.
  specialize (Hm w Hw); destruct (m w) as [[a|e] w1]; cbn in *; auto.
  apply Hk, Hm.
Qed.

Lemma keeps_try_except {A} I (body : M A) handler :
  keeps I body -> (forall e, keeps I (handler e)) ->
  keeps I (try_except body handler).
Proof.
  intros Hm Hk w Hw; unfold try_except.
  specialize (Hm w Hw); destruct (body w) as [[a|e] w1]; cbn in *; auto.
  apply Hk, Hm.
Qed.

Lemma keeps_ret {A} I (a : A) : keeps I (ret a).
Proof. intros w Hw; exact Hw. Qed.

Lemma leads_to_bind {A B} P R (m : M A) (k : A -> M B) (Q : World -> Prop) :
  leads_to P m R -> (forall w, R w -> Q w) ->
  (forall a, leads_to R (k a) Q) ->
  leads_to P (bind m k) Q.
Proof.
  intros Hm HQ Hk w Hw; unfold bind.
  specialize (Hm w Hw); destruct (m w) as [[a|e] w1]; cbn in *; auto.
  apply Hk, Hm.
Qed.

Lemma leads_to_ret {A} I (a : A) (Q : World -> Prop) :
  (forall w, I w -> Q w) -> leads_to I (ret a) Q.
Proof. intros HQ w Hw; apply HQ, Hw. Qed.

Lemma gather_true sched w w' :
  gather sched w = (Returns true, w') -> forallb is_done (pool w') = true.
Proof.
  revert w; induction sched as [|e sched IH]; intros w; cbn [gather];
    destruct (first_crash (pool w)); try discriminate;
    destruct (forallb is_done (pool w)) eqn:Hd; try discriminate.
  - intros [= <-]; exact Hd.
  - intros [= <-]; exact Hd.
  - unfold bind.
    destruct (step_events e w) as (evs & stop' & pool' & -> & _).
    apply IH.
Qed.

Lemma print_all_trace lines w :
  print_all lines w
  = (Returns tt,
     mkWorld (stats w) (stop_event w) (trace w ++ map Print lines) (pool w)).
Proof.
  revert w; induction lines as [|l lines IH]; intros w; cbn [print_all map].
  - rewrite app_nil_r; destruct w; reflexivity.
  - unfold bind, print, emit; rewrite IH; cbn.
    rewrite <- app_assoc; reflexivity.
Qed.

(** Everything that [main] does between the creation of [Stats] and
    [gather] keeps an invariant of the state of the process, provided the
    invariant survives the logging of a plain event, a run of tasks and a
    change of the task pool. *)
Section Invariant.

Variable I : World -> Prop.

Hypothesis I_emit :
  forall ev w, plain ev = true -> I w -> I (snd (emit ev w)).

Hypothesis I_tasks :
  forall evs stop' pool' w,
    Forall (fun e => task_event e = true) evs -> I w ->
    I (mkWorld (replay evs (stats w)) stop' (trace w ++ evs) pool').

Hypothesis I_pool :
  forall pool' w,
    I w -> I (mkWorld (stats w) (stop_event w) (trace w) pool').

Lemma keeps_emit ev : plain ev = true -> keeps I (emit ev).
Proof. intros Hev w Hw; apply I_emit; assumption. Qed.

Lemma keeps_print text : prefix "Total: " text = false -> keeps I (print text).
Proof. intros H; apply keeps_emit; cbn; rewrite H; reflexivity. Qed.

Lemma keeps_step e : keeps I (step e).
Proof.
  intros w Hw.
  destruct (step_events e w) as (evs & stop' & pool' & -> & Hev & _).
  apply I_tasks; assumption.
Qed.

Lemma keeps_run_tasks sched : keeps I (run_tasks sched).
Proof.
  intros w Hw.
  destruct (run_tasks_events sched w) as (evs & stop' & pool' & -> & Hev & _).
  apply I_tasks; assumption.
Qed.

Lemma keeps_await call a : plain call = true -> keeps I (await call a).
Proof.
  intros H; unfold await.
  apply keeps_bind; [apply keeps_emit, H|intros _].
  apply keeps_bind; [apply keeps_run_tasks|intros _].
  intros w Hw; exact Hw.
Qed.

Ltac keeps_tac :=
  repeat first
    [ apply keeps_ret
    | apply keeps_await; reflexivity
    | apply keeps_print; reflexivity
    | apply keeps_emit; reflexivity
    | apply keeps_run_tasks
    | apply keeps_bind; [|intros ?]
    | apply keeps_try_except; [|intros ?]
    | match goal with
      | |- keeps _ (if ?c then _ else _) => destruct c
      | |- keeps _ (match ?x with Some _ => _ | None => _ end) => destruct x
      end ].

Lemma keeps_ensure_stream env name subject_prefix :
  keeps I (ensure_stream env name subject_prefix).
Proof. unfold ensure_stream; keeps_tac. Qed.

Lemma keeps_ensure_kv_bucket env bucket :
  keeps I (ensure_kv_bucket env bucket).
Proof. unfold ensure_kv_bucket; keeps_tac. Qed.

Lemma keeps_ensure_object_store env bucket :
  keeps I (ensure_object_store env bucket).
Proof. unfold ensure_object_store; keeps_tac. Qed.

Lemma keeps_create_task k handle config i :
  keeps I (create_task k handle config i).
Proof. intros w Hw; apply I_pool, Hw. Qed.

Lemma keeps_create_tasks k handle config ids :
  keeps I (create_tasks k handle config ids).
Proof.
  induction ids as [|i ids IH]; cbn [create_tasks]; [apply keeps_ret|].
  apply keeps_bind; [apply keeps_create_task|intros _; exact IH].
Qed.

Lemma keeps_gather sched : keeps I (gather sched).
Proof.
  induction sched as [|e sched IH]; intros w Hw; cbn [gather];
    destruct (first_crash (pool w)); auto;
    destruct (forallb is_done (pool w)); auto.
  apply (keeps_bind I (step e) (fun _ => gather sched));
    auto using keeps_step.
Qed.

Ltac keeps_main :=
  repeat first
    [ apply keeps_ret
    | apply keeps_create_tasks
    | apply keeps_create_task
    | apply keeps_ensure_stream
    | apply keeps_ensure_kv_bucket
    | apply keeps_ensure_object_store
    | apply keeps_print; reflexivity
    | apply keeps_emit; reflexivity
    | apply keeps_bind; [|intros ?]
    | match goal with
      | |- keeps _ (if ?c then _ else _) => destruct c
      | |- keeps _ (match ?x with Some _ => _ | None => _ end) => destruct x
      end ].

(** [main] as a whole: [P] holds until [Stats] is created (it survives the
    plain events logged till then), the creation establishes [I], and what
    follows [gather] leads from [I] to [Q]. *)
Lemma main_leads_to config env (P Q : World -> Prop) :
  (forall ev w, plain ev = true -> P w -> P (snd (emit ev w))) ->
  (forall w, P w -> I (mkWorld (new_stats (started env)) false (trace w) [])) ->
  (forall w, P w -> Q w) ->
  (forall w, I w -> Q w) ->
  leads_to I
    (all_returned <- gather (schedule env) ;;
     if all_returned then
       print_final_stats (finished1 env) (finished2 env) ;;
       emit Close ;;
       (fun w => (close env, w)) ;;
       ret Finished
     else ret Waiting)
    Q ->
  leads_to P (main config env) Q.
Proof.
  intros P_emit P_init PQ IQ Htail.
  assert (P_print : forall text,
             prefix "Total: " text = false -> leads_to P (print text) P).
  { intros text H w Hw; apply P_emit; [cbn; rewrite H; reflexivity|exact Hw]. }
  unfold main; cbv zeta.
  destruct (_ =? 0).
  - repeat (apply leads_to_bind with (R := P);
            [apply P_print; reflexivity|exact PQ|intros _]).
    apply leads_to_ret, PQ.
  - apply leads_to_bind with (R := P);
      [apply P_print; reflexivity|exact PQ|intros _].
    apply leads_to_bind with (R := P);
      [intros w Hw; apply P_emit; [reflexivity|exact Hw]|exact PQ|intros _].
    destruct (connect env).
    + apply leads_to_bind with (R := P);
        [apply P_print; reflexivity|exact PQ|intros _].
      apply leads_to_bind with (R := P);
        [destruct (_ || _); [apply P_print; reflexivity|intros w Hw; exact Hw]
        |exact PQ|intros _].
      apply leads_to_bind with (R := I);
        [intros w Hw; apply P_init, Hw|exact IQ|intros _].
      repeat first
        [ exact Htail
        | apply leads_to_bind with (R := I);
          [ match goal with
            | |- leads_to _ ?m _ => change (keeps I m)
            end; solve [keeps_main]
          | exact IQ
          | intros ? ] ].
    + apply leads_to_bind with (R := P);
        [apply P_print; reflexivity|exact PQ|intros _].
      apply leads_to_ret, PQ.
Qed.

End Invariant.

Lemma task_event_ordinary e : task_event e = true -> ordinary e = true.
Proof.
  destruct e; cbn; try discriminate; auto.
  destruct text as [|c text]; [reflexivity|].
  cbn [prefix]; destruct (ascii_dec "T" c) as [<-|]; [|reflexivity].
  cbn; discriminate.
Qed.

Lemma plain_ordinary e : plain e = true -> ordinary e = true.
Proof. destruct e; cbn; auto. Qed.

Lemma before_summary_open w : before_summary w -> ~ In Close (trace w).
Proof.
  unfold before_summary; rewrite Forall_forall; intros H Hin.
  specialize (H Close Hin); discriminate.
Qed.

Lemma open_not_summarised env w :
  before_summary w -> In Close (trace w) -> summarised env w.
Proof. intros H Hin; exfalso; eapply before_summary_open; eauto. Qed.

(** From [gather] on: when it returns, the summary is printed from the
    counters of that moment and the connection is closed. *)
Lemma gather_then_summary env :
  leads_to before_summary
    (all_returned <- gather (schedule env) ;;
     if all_returned then
       print_final_stats (finished1 env) (finished2 env) ;;
       emit Close ;;
       (fun w => (close env, w)) ;;
       ret Finished
     else ret Waiting)
    (fun w' => In Close (trace w') -> summarised env w').
Proof.
  assert (Hkeep : keeps before_summary (gather (schedule env))).
  { apply keeps_gather; intros evs stop' pool' w Hev Hw.
    unfold before_summary in *; cbn; apply Forall_app; split; auto.
    eapply Forall_impl; [|exact Hev]; apply task_event_ordinary. }
  intros w Hw; unfold print_final_stats, bind; cbv beta.
  pose proof (Hkeep w Hw) as Hg.
  destruct (gather (schedule env) w) as [[[]|e] wg] eqn:Hrun; cbn [snd] in Hg.
  - intros _; exists wg; split; [exact Hg|split].
    + eapply gather_true; eassumption.
    + rewrite print_all_trace; cbn.
      destruct (close env); cbn; rewrite <- app_assoc; reflexivity.
  - cbn; apply open_not_summarised, Hg.
  - cbn; apply open_not_summarised, Hg.
Qed.

Lemma main_summarises config env :
  leads_to before_summary (main config env)
    (fun w' => In Close (trace w') -> summarised env w').
Proof.
  apply main_leads_to with (I := before_summary).
  - intros ev w Hev Hw; unfold before_summary in *; cbn.
    apply Forall_app; split; auto using plain_ordinary.
  - intros evs stop' pool' w Hev Hw.
    unfold before_summary in *; cbn; apply Forall_app; split; auto.
    eapply Forall_impl; [|exact Hev]; apply task_event_ordinary.
  - intros pool' w Hw; exact Hw.
  - intros ev w Hev Hw; unfold before_summary in *; cbn.
    apply Forall_app; split; auto using plain_ordinary.
  - intros w Hw; exact Hw.
  - intros w; apply open_not_summarised.
  - intros w; apply open_not_summarised.
  - apply gather_then_summary.
Qed.

(** *** The counters are accounted for by the log *)

Lemma replay_no_increments evs s :
  Forall (fun e => is_increment e = false) evs -> replay evs s = s.
Proof.
  intros H; revert s; induction H as [|e evs He _ IH]; intros s;
    [reflexivity|].
  cbn [replay fold_left]; fold (replay evs (apply_event s e)).
  rewrite IH; destruct e; try reflexivity; discriminate.
Qed.

Lemma replay_snoc evs e s :
  replay (evs ++ [e]) s = apply_event (replay evs s) e.
Proof. rewrite replay_app; reflexivity. Qed.

Lemma accounted_emit ev w :
  is_increment ev = false -> accounted w -> accounted (snd (emit ev w)).
Proof.
  intros Hev [Hs Hu]; unfold accounted; cbn; split.
  - rewrite replay_snoc, <- Hs; destruct ev; try reflexivity; discriminate.
  - apply Forall_app; split; [exact Hu|].
    constructor; [destruct ev; try reflexivity; discriminate|constructor].
Qed.

Lemma plain_not_increment ev : plain ev = true -> is_increment ev = false.
Proof. destruct ev; cbn; auto; discriminate. Qed.

Lemma accounted_tasks evs stop' pool' w :
  Forall (fun e => task_event e = true) evs -> accounted w ->
  accounted (mkWorld (replay evs (stats w)) stop' (trace w ++ evs) pool').
Proof.
  intros Hev [Hs Hu]; unfold accounted; cbn [stats trace].
  pose proof (replay_le evs (stats w) Hev) as Hle.
  assert (Ht : start_time (replay evs (stats w)) = start_time (stats w)).
  { unfold stats_le in Hle; symmetry; apply Hle. }
  split.
  - rewrite Ht, replay_app, <- Hs; reflexivity.
  - apply Forall_app; split; [exact Hu|].
    eapply Forall_impl; [|exact Hev]; apply task_event_unit.
Qed.

Lemma accounted_summary env :
  leads_to accounted
    (all_returned <- gather (schedule env) ;;
     if all_returned then
       print_final_stats (finished1 env) (finished2 env) ;;
       emit Close ;;
       (fun w => (close env, w)) ;;
       ret Finished
     else ret Waiting)
    accounted.
Proof.
  assert (Hkeep : keeps accounted (gather (schedule env)))
    by (apply keeps_gather; intros; apply accounted_tasks; assumption).
  intros w Hw; unfold print_final_stats, bind; cbv beta.
  pose proof (Hkeep w Hw) as Hg.
  destruct (gather (schedule env) w) as [[[]|e] wg]; cbn [snd] in Hg;
    try exact Hg.
  rewrite print_all_trace; cbn.
  assert (Hprinted : accounted
            (mkWorld (stats wg) (stop_event wg)
               ((trace wg
                 ++ map Print
                      (final_stats_lines (stats wg) (finished1 env)
                         (finished2 env)))
                ++ [Close])
               (pool wg))).
  { destruct Hg as [Hs Hu]; unfold accounted; cbn [stats trace].
    assert (Hn : Forall (fun e => is_increment e = false)
                   (map Print
                      (final_stats_lines (stats wg) (finished1 env)
                         (finished2 env)) ++ [Close])).
    { apply Forall_app; split; [|repeat constructor].
      apply Forall_forall; intros e He; apply in_map_iff in He as (l & <- & _).
      reflexivity. }
    rewrite <- app_assoc; split.
    - rewrite replay_app, <- Hs, replay_no_increments; auto.
    - apply Forall_app; split; [exact Hu|].
      eapply Forall_impl; [|exact Hn].
      intros e He; destruct e; try reflexivity; discriminate. }
  destruct (close env); exact Hprinted.
Qed.

Lemma main_accounted config env :
  leads_to (fun w => nothing_counted w /\ accounted w) (main config env)
    accounted.
Proof.
  apply main_leads_to with (I := accounted).
  - intros ev w Hev; apply accounted_emit, plain_not_increment, Hev.
  - intros evs stop' pool' w; apply accounted_tasks.
  - intros pool' w Hw; exact Hw.
  - intros ev w Hev [Hn Ha]; split.
    + unfold nothing_counted in *; cbn; apply Forall_app; split; [exact Hn|].
      constructor; [apply plain_not_increment, Hev|constructor].
    + apply accounted_emit; [apply plain_not_increment, Hev|exact Ha].
  - intros w [Hn _]; unfold accounted; cbn [stats trace start_time new_stats].
    split; [symmetry; apply replay_no_increments, Hn|].
    eapply Forall_impl; [|exact Hn].
    intros e He; destruct e; try reflexivity; discriminate.
  - intros w [_ Ha]; exact Ha.
  - auto.
  - apply accounted_summary.
Qed.

(** C4.  Over a whole run of the program the counters are accounted for by
    the log: at the end they are what the logged increments, each of one of
    the ten counters and by 1, make of counters that are all zero; nothing
    else ever changes a counter.  In any run of the event loop, whatever the
    tasks in the pool and whatever the schedule (which task runs when, what
    the broker answers, when signals arrive), every counter at the end is at
    least what it was at the start; and every single turn of the loop either
    leaves the counters as they are or is the increment by 1 of exactly one
    counter.  No turn lowers or resets a counter. *)
Theorem counters_only_grow config env sched e w :
  (let w' := snd (program config env) in
   stats w' = replay (trace w') (new_stats (start_time (stats w')))
   /\ Forall (fun e => unit_increment e = true) (trace w'))
  /\ stats_le (stats w) (stats (snd (run_tasks sched w)))
  /\ (let w' := snd (step e w) in
      stats w' = stats w
      \/ exists stat_name,
           is_counter stat_name = true
           /\ increment (stats w) stat_name 1 = Returns (stats w')
           /\ stats_le (stats w) (stats w')).
Proof.
  split; [|split].
  - apply (main_accounted config env initial_world).
    split; [constructor|split; [reflexivity|constructor]].
  - destruct (run_tasks_events sched w) as (evs & stop' & pool' & -> & Ht & _).
    apply replay_le, Ht.
  - destruct (step_single_increment e w) as [H|(n & Hc & Hi)]; [left; exact H|].
    right; exists n; split; [exact Hc|split; [exact Hi|]].
    apply (increment_le _ _ n 1 Hc); [lia|exact Hi].
Qed.

Lemma ordinary_not_total evs :
  Forall (fun e => ordinary e = true) evs -> filter is_total_line evs = [].
Proof.
  induction 1 as [|e evs He _ IH]; [reflexivity|].
  cbn [filter]; rewrite IH.
  destruct e; try reflexivity; cbn in *.
  destruct (prefix "Total: " text); [discriminate|reflexivity].
Qed.

Lemma prefix_empty s : prefix "" s = true.
Proof. destruct s; reflexivity. Qed.

Lemma one_total_line s now1 now2 :
  filter is_total_line (map Print (final_stats_lines s now1 now2) ++ [Close])
  = [Print (total_line s)].
Proof.
  unfold final_stats_lines, total_line.
  cbn -[Py.str format_float rjust total_sent total_errors].
  rewrite prefix_empty; reflexivity.
Qed.

(** When [main] has closed the connection, every task has returned and
    the log ends with the one summary. *)
Lemma summary_before_close config env :
  let w' := snd (program config env) in
  In Close (trace w') ->
  forallb is_done (pool w') = true
  /\ (exists before,
        trace w'
        = before
          ++ map Print
               (final_stats_lines (stats w') (finished1 env) (finished2 env))
          ++ [Close]
        /\ Forall (fun e => ordinary e = true) before)
  /\ filter is_total_line (trace w') = [Print (total_line (stats w'))].
Proof.
  cbv zeta; intros Hclose.
  assert (H0 : before_summary initial_world) by constructor.
  destruct (main_summarises config env initial_world H0 Hclose)
    as (wg & Hg & Hdone & Hw').
  fold (program config env) in Hw'; rewrite Hw'; cbn [pool trace stats].
  split; [exact Hdone|split].
  - exists (trace wg); auto.
  - rewrite filter_app, (ordinary_not_total _ Hg), one_total_line; reflexivity.
Qed.

(** *** A run that reaches the shutdown prints the summary *)

Lemma ends_after {A B} P (m : M A) R (k : A -> M B) Q :
  returns P m R -> (forall a, ends (R a) (k a) Q) -> ends P (bind m k) Q.
Proof.
  intros Hm Hk w Hw; unfold bind.
  destruct (Hm w Hw) as (a & Ha & HR).
  destruct (m w) as [r w1]; cbn [fst snd] in *; subst r.
  apply Hk, HR.
Qed.

Lemma ends_bind {A B} (I : World -> Prop) (m : M A) (k : A -> M B) Q :
  keeps I m -> (forall e w, I w -> Q (Raises e, w)) ->
  (forall a, ends I (k a) Q) -> ends I (bind m k) Q.
Proof.
  intros Hm Hraise Hk w Hw; unfold bind.
  specialize (Hm w Hw); destruct (m w) as [[a|e] w1]; cbn [snd] in Hm.
  - apply Hk, Hm.
  - apply Hraise, Hm.
Qed.

Lemma keeps_and {A} (I J : World -> Prop) (m : M A) :
  keeps I m -> keeps J m -> keeps (fun w => I w /\ J w) m.
Proof. intros HI HJ w [Hi Hj]; split; [apply HI, Hi|apply HJ, Hj]. Qed.

Lemma before_summary_emit ev w :
  plain ev = true -> before_summary w -> before_summary (snd (emit ev w)).
Proof.
  intros Hev Hw; unfold before_summary in *; cbn.
  apply Forall_app; split; auto using plain_ordinary.
Qed.

Lemma before_summary_tasks evs stop' pool' w :
  Forall (fun e => task_event e = true) evs -> before_summary w ->
  before_summary (mkWorld (replay evs (stats w)) stop' (trace w ++ evs) pool').
Proof.
  intros Hev Hw; unfold before_summary in *; cbn; apply Forall_app; split; auto.
  eapply Forall_impl; [|exact Hev]; apply task_event_ordinary.
Qed.

Lemma before_summary_pool pool' w :
  before_summary w ->
  before_summary (mkWorld (stats w) (stop_event w) (trace w) pool').
Proof. intros Hw; exact Hw. Qed.

Ltac keeps_before_summary :=
  repeat first
    [ apply keeps_ret
    | apply (keeps_create_tasks _ before_summary_pool)
    | apply (keeps_create_task _ before_summary_pool)
    | apply (keeps_ensure_stream _ before_summary_emit before_summary_tasks)
    | apply (keeps_ensure_kv_bucket _ before_summary_emit before_summary_tasks)
    | apply (keeps_ensure_object_store _ before_summary_emit
               before_summary_tasks)
    | apply (keeps_gather _ before_summary_tasks)
    | apply (keeps_print _ before_summary_emit); reflexivity
    | apply (keeps_emit _ before_summary_emit); reflexivity
    | apply keeps_bind; [|intros ?]
    | match goal with
      | |- keeps _ (if ?c then _ else _) => destruct c
      | |- keeps _ (match ?x with Some _ => _ | None => _ end) => destruct x
      end ].

Lemma task_event_not_started e :
  task_event e = true -> is_started_line e = false.
Proof.
  destruct e as [text| | | | | | | | | | | | | |]; try reflexivity.
  cbn [is_started_line]; intros H.
  destruct (String.eqb_spec text
              "All publishers started. Press Ctrl+C to stop."); [|reflexivity].
  subst text; discriminate.
Qed.

Lemma not_started_emit ev :
  is_started_line ev = false -> keeps not_started (emit ev).
Proof.
  intros Hev w Hw; unfold not_started in *; cbn.
  apply Forall_app; split; [exact Hw|constructor; [exact Hev|constructor]].
Qed.

Lemma not_started_print text :
  (text =? "All publishers started. Press Ctrl+C to stop.")%string = false ->
  keeps not_started (print text).
Proof. intros H; apply not_started_emit, H. Qed.

Lemma not_started_run_tasks sched : keeps not_started (run_tasks sched).
Proof.
  intros w Hw; unfold not_started in *.
  destruct (run_tasks_events sched w) as (evs & stop' & pool' & -> & Ht & _).
  cbn; apply Forall_app; split; [exact Hw|].
  eapply Forall_impl; [|exact Ht]; apply task_event_not_started.
Qed.

Lemma not_started_await call a :
  is_started_line call = false -> keeps not_started (await call a).
Proof.
  intros Hc; unfold await.
  apply keeps_bind; [apply not_started_emit, Hc|intros _].
  apply keeps_bind; [apply not_started_run_tasks|intros _].
  intros w Hw; exact Hw.
Qed.

Lemma not_started_create_task k handle config i :
  keeps not_started (create_task k handle config i).
Proof. intros w Hw; exact Hw. Qed.

Lemma not_started_create_tasks k handle config ids :
  keeps not_started (create_tasks k handle config ids).
Proof.
  induction ids as [|i ids IH]; cbn [create_tasks]; [apply keeps_ret|].
  apply keeps_bind; [apply not_started_create_task|intros _; exact IH].
Qed.

Ltac keeps_not_started :=
  unfold ensure_stream, ensure_kv_bucket, ensure_object_store;
  repeat first
    [ apply keeps_ret
    | apply not_started_create_tasks
    | apply not_started_create_task
    | apply not_started_await; reflexivity
    | apply not_started_print; reflexivity
    | apply not_started_emit; reflexivity
    | apply keeps_bind; [|intros ?]
    | apply keeps_try_except; [|intros ?]
    | match goal with
      | |- keeps _ (if ?c then _ else _) => destruct c
      | |- keeps _ (match ?x with Some _ => _ | None => _ end) => destruct x
      end ].

Lemma no_crash_same_pool {A} (m : M A) :
  (forall w, pool (snd (m w)) = pool w) -> keeps no_crash m.
Proof. intros H w Hw; unfold no_crash in *; rewrite H; exact Hw. Qed.

Lemma no_crash_emit ev : keeps no_crash (emit ev).
Proof. apply no_crash_same_pool; reflexivity. Qed.

Lemma no_crash_print text : keeps no_crash (print text).
Proof. apply no_crash_emit. Qed.

Lemma no_crash_run_tasks sched : keeps no_crash (run_tasks sched).
Proof.
  intros w Hw; unfold no_crash in *.
  destruct (run_tasks_events sched w) as (evs & stop' & pool' & -> & _ & _ & Hc).
  apply Hc, Hw.
Qed.

Lemma no_crash_await call a : keeps no_crash (await call a).
Proof.
  unfold await; apply keeps_bind; [apply no_crash_emit|intros _].
  apply keeps_bind; [apply no_crash_run_tasks|intros _].
  intros w Hw; exact Hw.
Qed.

Lemma no_crash_create_task k handle config i :
  keeps no_crash (create_task k handle config i).
Proof.
  intros w Hw; unfold no_crash in *; cbn.
  rewrite first_crash_None in *; apply Forall_app; split; [exact Hw|].
  constructor; [discriminate|constructor].
Qed.

Lemma no_crash_create_tasks k handle config ids :
  keeps no_crash (create_tasks k handle config ids).
Proof.
  induction ids as [|i ids IH]; cbn [create_tasks]; [apply keeps_ret|].
  apply keeps_bind; [apply no_crash_create_task|intros _; exact IH].
Qed.

Ltac keeps_no_crash :=
  unfold ensure_stream, ensure_kv_bucket, ensure_object_store;
  repeat first
    [ apply keeps_ret
    | apply no_crash_create_tasks
    | apply no_crash_create_task
    | apply no_crash_await
    | apply no_crash_print
    | apply no_crash_emit
    | apply keeps_bind; [|intros ?]
    | apply keeps_try_except; [|intros ?]
    | match goal with
      | |- keeps _ (if ?c then _ else _) => destruct c
      | |- keeps _ (match ?x with Some _ => _ | None => _ end) => destruct x
      end ].

(** [gather] gives [false] only with a task that has not returned. *)
Lemma gather_false sched w w' :
  gather sched w = (Returns false, w') -> forallb is_done (pool w') = false.
Proof.
  revert w; induction sched as [|e sched IH]; intros w; cbn [gather];
    destruct (first_crash (pool w)); try discriminate;
    destruct (forallb is_done (pool w)) eqn:Hd; try discriminate.
  - intros H; injection H as <-; exact Hd.
  - unfold bind.
    destruct (step_events e w) as (evs & stop' & pool' & -> & _).
    apply IH.
Qed.

(** From the state in which [main] starts to wait for its tasks: when at the
    end every task has returned, the summary has been printed. *)
Lemma summary_after_gather env :
  ends (fun w => before_summary w /\ no_crash w)
    (all_returned <- gather (schedule env) ;;
     if all_returned then
       print_final_stats (finished1 env) (finished2 env) ;;
       emit Close ;;
       (fun w => (close env, w)) ;;
       ret Finished
     else ret Waiting)
    (fun r => forallb is_done (pool (snd r)) = true -> summary_printed env r).
Proof.
  intros w [Hb Hc]; unfold bind, print_final_stats.
  assert (Hkeep : keeps before_summary (gather (schedule env)))
    by keeps_before_summary.
  pose proof (Hkeep w Hb) as Hg.
  destruct (gather_returns (schedule env) w Hc) as (b & Hret).
  destruct (gather (schedule env) w) as [r wg] eqn:Hrun;
    cbn [fst snd] in Hret, Hg; subst r.
  destruct b.
  - intros _; rewrite print_all_trace.
    unfold summary_printed, emit, ret; cbn [stats stop_event trace pool].
    assert (Hlog :
      forall r : result ending,
        let w' := mkWorld (stats wg) (stop_event wg)
                    ((trace wg
                      ++ map Print
                           (final_stats_lines (stats wg) (finished1 env)
                              (finished2 env))) ++ [Close]) (pool wg) in
        (exists before,
            trace (snd (r, w'))
            = before
              ++ map Print
                   (final_stats_lines (stats (snd (r, w'))) (finished1 env)
                      (finished2 env))
              ++ [Close]
            /\ Forall (fun e => ordinary e = true) before)
        /\ filter is_total_line (trace (snd (r, w')))
           = [Print (total_line (stats (snd (r, w'))))]).
    { intros r; cbn [snd trace stats]; split.
      - exists (trace wg); rewrite <- app_assoc; auto.
      - rewrite <- app_assoc, filter_app, (ordinary_not_total _ Hg),
          one_total_line; reflexivity. }
    destruct (close env) as [u|e] eqn:Hclose; cbn.
    + destruct (Hlog (Returns Finished)) as [H1 H2].
      split; [exact H1|split; [exact H2|left; reflexivity]].
    + destruct (Hlog (Raises e)) as [H1 H2].
      split; [exact H1|split; [exact H2|]].
      right; exists e; split; reflexivity.
  - unfold ret; cbn [snd]; intros Hdone.
    rewrite (gather_false _ _ _ Hrun) in Hdone; discriminate.
Qed.

Lemma not_started_In w :
  not_started w ->
  ~ In (Print "All publishers started. Press Ctrl+C to stop.") (trace w).
Proof.
  unfold not_started; rewrite Forall_forall; intros H Hin.
  specialize (H _ Hin); discriminate.
Qed.

(** The whole of [main]: a run in which the line that ends the launching is
    printed and every task has returned at the end has printed the
    summary. *)
Lemma main_reaches_summary config env :
  ends (fun w => before_summary w /\ not_started w) (main config env)
    (fun r =>
       In (Print "All publishers started. Press Ctrl+C to stop.")
          (trace (snd r)) ->
       forallb is_done (pool (snd r)) = true ->
       summary_printed env r).
Proof.
  assert (Hearly : forall (r : result ending) w,
             before_summary w /\ not_started w ->
             In (Print "All publishers started. Press Ctrl+C to stop.")
                (trace (snd (r, w))) ->
             forallb is_done (pool (snd (r, w))) = true ->
             summary_printed env (r, w)).
  { intros r w [_ Hn] Hin; destruct (not_started_In w Hn Hin). }
  assert (Hearly' : forall (r : result ending) w,
             (before_summary w /\ not_started w) /\ no_crash w ->
             In (Print "All publishers started. Press Ctrl+C to stop.")
                (trace (snd (r, w))) ->
             forallb is_done (pool (snd (r, w))) = true ->
             summary_printed env (r, w)).
  { intros r w [H _]; apply Hearly, H. }
  unfold main; cbv zeta.
  destruct (_ =? 0).
  - repeat (apply ends_bind;
            [apply keeps_and; [keeps_before_summary|keeps_not_started]
            |intros e w; apply Hearly|intros _]).
    intros w; apply Hearly.
  - apply ends_bind;
      [apply keeps_and; [keeps_before_summary|keeps_not_started]
      |intros e w; apply Hearly|intros _].
    apply ends_bind;
      [apply keeps_and; [keeps_before_summary|keeps_not_started]
      |intros e w; apply Hearly|intros _].
    destruct (connect env).
    2:{ apply ends_bind;
          [apply keeps_and; [keeps_before_summary|keeps_not_started]
          |intros e' w; apply Hearly|intros _].
        intros w; apply Hearly. }
    apply ends_bind;
      [apply keeps_and; [keeps_before_summary|keeps_not_started]
      |intros e w; apply Hearly|intros _].
    apply ends_bind;
      [apply keeps_and; [keeps_before_summary|keeps_not_started]
      |intros e w; apply Hearly|intros _].
    (* stop_event = asyncio.Event(); stats = Stats(); tasks = [] *)
    apply ends_after
      with (R := fun _ w => (before_summary w /\ not_started w) /\ no_crash w);
      [intros w Hw; exists tt; split; [reflexivity|split; [exact Hw|reflexivity]]
      |intros _].
    do 7 (apply ends_bind;
          [apply keeps_and;
           [apply keeps_and; [keeps_before_summary|keeps_not_started]
           |keeps_no_crash]
          |intros e w; apply Hearly'|intros _]).
    apply ends_after with (R := fun _ w => before_summary w /\ no_crash w).
    + intros w [[Hb _] Hc]; exists tt; split; [reflexivity|].
      split; [|exact Hc].
      clear Hc; revert w Hb; change (keeps before_summary
                                  (print "All publishers started. Press Ctrl+C to stop.")).
      keeps_before_summary.
    + intros _ w Hw _; apply (summary_after_gather env w Hw).
Qed.

(** C7.  A run reaches the shutdown when [main] has launched its tasks
    (it printed the line that ends the launching) and every task of the
    pool has returned.  Every such run has printed the final summary: the
    log is what was logged before, then the lines of the summary computed
    from the counters at the end, then the closing of the connection; the
    totals line of the summary occurs exactly once in the whole log; and
    [main] returns (or raises what the closing of the connection raised,
    after the summary).  Conversely the connection is closed, and the
    summary printed, only when every task has returned.  The totals line
    reports the sum of the five sent counters and the sum of the five error
    counters. *)
Theorem final_summary_once_with_exact_totals config env :
  let r := program config env in
  let w' := snd r in
  (In (Print "All publishers started. Press Ctrl+C to stop.") (trace w') ->
   forallb is_done (pool w') = true ->
   (exists before,
       trace w'
       = before
         ++ map Print
              (final_stats_lines (stats w') (finished1 env) (finished2 env))
         ++ [Close]
       /\ Forall (fun e => ordinary e = true) before)
   /\ filter is_total_line (trace w') = [Print (total_line (stats w'))]
   /\ (fst r = Returns Finished
       \/ exists e, close env = Raises e /\ fst r = Raises e))
  /\ (In Close (trace w') ->
      forallb is_done (pool w') = true
      /\ (exists before,
            trace w'
            = before
              ++ map Print
                   (final_stats_lines (stats w') (finished1 env)
                      (finished2 env))
              ++ [Close]
            /\ Forall (fun e => ordinary e = true) before)
      /\ filter is_total_line (trace w') = [Print (total_line (stats w'))])
  /\ total_line (stats w')
     = ("Total: "
        ++ Py.str (normal_sent (stats w') + js_sent (stats w')
                   + reqrep_sent (stats w') + kv_sent (stats w')
                   + obj_sent (stats w'))
        ++ " messages (errors: "
        ++ Py.str (normal_errors (stats w') + js_errors (stats w')
                   + reqrep_errors (stats w') + kv_errors (stats w')
                   + obj_errors (stats w'))
        ++ ")")%string.
Proof.
  cbv zeta; split; [|split].
  - apply (main_reaches_summary config env initial_world).
    split; constructor.
  - apply summary_before_close.
  - reflexivity.
Qed.


(** C2.  When the five instance counts of the configuration sum to zero,
    the program prints its three lines of advice and exits with status 1:
    nothing else is logged (no connection to the broker is attempted) and
    the task pool stays empty (no publisher and no reporter is created). *)
Theorem no_publishers_is_a_configuration_error config env :
  normal_publishers config + js_publishers config + reqrep_publishers config
  + kv_publishers config + obj_publishers config = 0 ->
  program config env
  = (Returns (Exit 1),
     mkWorld (new_stats 0) false
       [ Print "No publishers configured. Use flags or config file to specify publishers.";
         Print "Example: nats_test_publisher.py --normal 5 --js 3";
         Print "Run with --help for options or --generate-config for a sample config file." ]
       []).
Proof.
  intros H; unfold program, main; cbv zeta; rewrite H; reflexivity.
Qed.

(** ** The tasks that are launched *)

Lemma returns_bind {A B} P (m : M A) R (k : A -> M B) Q :
  returns P m R -> (forall a, returns (R a) (k a) Q) -> returns P (bind m k) Q.
Proof.
  intros Hm Hk w Hw; unfold bind.
  destruct (Hm w Hw) as (a & Ha & HR).
  destruct (m w) as [r w1]; cbn in *; subst r.
  apply Hk, HR.
Qed.

Lemma returns_ret {A} (P : World -> Prop) (a : A) :
  returns P (ret a) (fun _ => P).
Proof. intros w Hw; exists a; auto. Qed.

Lemma returns_same_pool (m : M unit) l :
  (forall w, fst (m w) = Returns tt /\ pool (snd (m w)) = pool w) ->
  returns (has_tasks l) m (fun _ => has_tasks l).
Proof.
  intros H w Hw; destruct (H w) as [Hr Hp]; exists tt; split; auto.
  unfold has_tasks; rewrite Hp; exact Hw.
Qed.

Lemma returns_emit ev l : returns (has_tasks l) (emit ev) (fun _ => has_tasks l).
Proof. apply returns_same_pool; intros; split; reflexivity. Qed.

Lemma returns_print text l :
  returns (has_tasks l) (print text) (fun _ => has_tasks l).
Proof. apply returns_emit. Qed.

Lemma returns_run_tasks sched l :
  returns (has_tasks l) (run_tasks sched) (fun _ => has_tasks l).
Proof.
  intros w Hw.
  destruct (run_tasks_events sched w) as (evs & stop' & pool' & -> & _ & Hp & _).
  exists tt; split; [reflexivity|]; unfold has_tasks; cbn; congruence.
Qed.

(** An awaited call ends as the environment says and keeps the tasks. *)
Lemma await_outcome call a l w :
  has_tasks l w ->
  fst (await call a w) = outcome a /\ has_tasks l (snd (await call a w)).
Proof.
  intros Hw; unfold await, bind, emit; cbv beta iota.
  match goal with |- context [run_tasks _ ?w1] =>
    destruct (run_tasks_events (meanwhile a) w1)
      as (evs & stop' & pool' & -> & _ & Hp & _)
  end.
  cbn; split; [reflexivity|]; unfold has_tasks; cbn in *; congruence.
Qed.

Ltac finish_with Hp :=
  eexists; split; [reflexivity|]; try (split; [reflexivity|]); exact Hp.

Lemma returns_ensure_stream env name subject_prefix l :
  returns (has_tasks l) (ensure_stream env name subject_prefix)
    (fun _ => has_tasks l).
Proof.
  intros w Hw; unfold ensure_stream, try_except, bind; cbv beta.
  destruct (await_outcome (AddStream name (subject_prefix ++ ".>"))
              (add_stream env) l w Hw) as [Hr Hp].
  destruct (await _ _ w) as [r w1]; cbn [fst snd] in *; subst r.
  destruct (outcome (add_stream env)) as [[]|e].
  - finish_with Hp.
  - destruct (is_bad_request e); finish_with Hp.
Qed.

Lemma returns_ensure_kv_bucket env bucket l b :
  provisioned (create_key_value env) (key_value env) = Some b ->
  returns (has_tasks l) (ensure_kv_bucket env bucket)
    (fun kv w => kv = (if b then Some bucket else None) /\ has_tasks l w).
Proof.
  unfold provisioned; intros Hb w Hw.
  unfold ensure_kv_bucket, try_except, bind; cbv beta.
  destruct (await_outcome (CreateKeyValue bucket) (create_key_value env) l w Hw)
    as [Hr Hp].
  destruct (await _ _ w) as [r w1]; cbn [fst snd] in *; subst r.
  destruct (outcome (create_key_value env)) as [[]|e].
  - injection Hb as <-; finish_with Hp.
  - destruct (is_bad_request e).
    + destruct (await_outcome (KeyValueLookup bucket) (key_value env) l w1 Hp)
        as [Hr' Hp'].
      destruct (await _ _ w1) as [r w2]; cbn [fst snd] in *; subst r.
      destruct (outcome (key_value env)) as [[]|e']; [|discriminate].
      injection Hb as <-; finish_with Hp'.
    + injection Hb as <-; finish_with Hp.
Qed.

Lemma returns_ensure_object_store env bucket l b :
  provisioned (create_object_store env) (object_store env) = Some b ->
  returns (has_tasks l) (ensure_object_store env bucket)
    (fun obs w => obs = (if b then Some bucket else None) /\ has_tasks l w).
Proof.
  unfold provisioned; intros Hb w Hw.
  unfold ensure_object_store, try_except, bind; cbv beta.
  destruct (await_outcome (CreateObjectStore bucket) (create_object_store env)
              l w Hw) as [Hr Hp].
  destruct (await _ _ w) as [r w1]; cbn [fst snd] in *; subst r.
  destruct (outcome (create_object_store env)) as [[]|e].
  - injection Hb as <-; finish_with Hp.
  - destruct (is_bad_request e).
    + destruct (await_outcome (ObjectStoreLookup bucket) (object_store env)
                  l w1 Hp) as [Hr' Hp'].
      destruct (await _ _ w1) as [r w2]; cbn [fst snd] in *; subst r.
      destruct (outcome (object_store env)) as [[]|e']; [|discriminate].
      injection Hb as <-; finish_with Hp'.
    + injection Hb as <-; finish_with Hp.
Qed.

Lemma returns_create_tasks k handle config ids l :
  returns (has_tasks l) (create_tasks k handle config ids)
    (fun _ => has_tasks (l ++ tasks_of k handle ids)).
Proof.
  revert l; induction ids as [|i ids IH]; intros l; cbn [create_tasks tasks_of map].
  - rewrite app_nil_r; apply returns_ret.
  - eapply returns_bind with (R := fun _ => has_tasks (l ++ [(k, handle, i)])).
    + intros w Hw; exists tt; split; [reflexivity|].
      unfold has_tasks in *; cbn; rewrite map_app, Hw; reflexivity.
    + intros _ w Hw; destruct (IH _ w Hw) as (a & Ha & Hp).
      exists a; split; [exact Ha|].
      unfold tasks_of in Hp; rewrite <- app_assoc in Hp; exact Hp.
Qed.

Lemma range_nonpositive n : (n >? 0) = false -> range n = [].
Proof.
  intros H; unfold range.
  assert (n <= 0) by lia.
  replace (Z.to_nat n) with 0%nat by lia; reflexivity.
Qed.

Lemma leads_to_after {A B} P (m : M A) R (k : A -> M B) (Q : World -> Prop) :
  returns P m R -> (forall a, leads_to (R a) (k a) Q) ->
  leads_to P (bind m k) Q.
Proof.
  intros Hm Hk w Hw; unfold bind.
  destruct (Hm w Hw) as (a & Ha & HR).
  destruct (m w) as [r w1]; cbn in *; subst r.
  apply Hk, HR.
Qed.

Lemma returns_js_block config env l :
  returns (has_tasks l)
    (if js_publishers config >? 0 then
       ensure_stream env (js_stream_name config) (js_subject_prefix config) ;;
       create_tasks (Publisher JetStream) "" config
         (range (js_publishers config))
     else ret tt)
    (fun _ =>
       has_tasks
         (l ++ tasks_of (Publisher JetStream) ""
                 (range (js_publishers config)))).
Proof.
  destruct (js_publishers config >? 0) eqn:Hn.
  - eapply returns_bind; [apply returns_ensure_stream|intros ?; cbv beta].
    apply returns_create_tasks.
  - rewrite (range_nonpositive _ Hn); cbn [tasks_of map]; rewrite app_nil_r.
    apply returns_ret.
Qed.

Lemma returns_kv_block config env l b :
  provisioned (create_key_value env) (key_value env) = Some b ->
  returns (has_tasks l)
    (if kv_publishers config >? 0 then
       kv <- ensure_kv_bucket env (kv_bucket config) ;;
       match kv with
       | Some kv =>
           create_tasks (Publisher KeyValue) kv config
             (range (kv_publishers config))
       | None => ret tt
       end
     else ret tt)
    (fun _ =>
       has_tasks
         (l ++ with_handle (Some b)
                 (tasks_of (Publisher KeyValue) (kv_bucket config)
                    (range (kv_publishers config))))).
Proof.
  intros Hb; destruct (kv_publishers config >? 0) eqn:Hn.
  - eapply returns_bind; [apply returns_ensure_kv_bucket, Hb|].
    intros kv w [-> Hw]; destruct b; cbn [with_handle].
    + apply returns_create_tasks, Hw.
    + rewrite app_nil_r; apply returns_ret, Hw.
  - rewrite (range_nonpositive _ Hn); destruct b; cbn [with_handle tasks_of map];
      rewrite app_nil_r; apply returns_ret.
Qed.

Lemma returns_obj_block config env l b :
  provisioned (create_object_store env) (object_store env) = Some b ->
  returns (has_tasks l)
    (if obj_publishers config >? 0 then
       obs <- ensure_object_store env (obj_bucket config) ;;
       match obs with
       | Some obs =>
           create_tasks (Publisher ObjectStore) obs config
             (range (obj_publishers config))
       | None => ret tt
       end
     else ret tt)
    (fun _ =>
       has_tasks
         (l ++ with_handle (Some b)
                 (tasks_of (Publisher ObjectStore) (obj_bucket config)
                    (range (obj_publishers config))))).
Proof.
  intros Hb; destruct (obj_publishers config >? 0) eqn:Hn.
  - eapply returns_bind; [apply returns_ensure_object_store, Hb|].
    intros obs w [-> Hw]; destruct b; cbn [with_handle].
    + apply returns_create_tasks, Hw.
    + rewrite app_nil_r; apply returns_ret, Hw.
  - rewrite (range_nonpositive _ Hn); destruct b; cbn [with_handle tasks_of map];
      rewrite app_nil_r; apply returns_ret.
Qed.

Lemma returns_reporter_block config l :
  returns (has_tasks l)
    (if stats_interval_sec config >? 0
     then create_task Reporter "" config 0 else ret tt)
    (fun _ =>
       has_tasks
         (l ++ (if stats_interval_sec config >? 0
                then [(Reporter, ""%string, 0)] else []))).
Proof.
  destruct (stats_interval_sec config >? 0).
  - intros w Hw; exists tt; split; [reflexivity|].
    unfold has_tasks in *; cbn; rewrite map_app, Hw; reflexivity.
  - rewrite app_nil_r; apply returns_ret.
Qed.

Lemma gather_pool sched w :
  map identity (pool (snd (gather sched w))) = map identity (pool w).
Proof.
  revert w; induction sched as [|e sched IH]; intros w; cbn [gather];
    destruct (first_crash (pool w)); try reflexivity;
    destruct (forallb is_done (pool w)); try reflexivity.
  unfold bind.
  destruct (step_events e w) as (evs & stop' & pool' & -> & _ & Hp & _).
  rewrite IH; exact Hp.
Qed.

Lemma summary_keeps_tasks env l :
  leads_to (has_tasks l)
    (all_returned <- gather (schedule env) ;;
     if all_returned then
       print_final_stats (finished1 env) (finished2 env) ;;
       emit Close ;;
       (fun w => (close env, w)) ;;
       ret Finished
     else ret Waiting)
    (has_tasks l).
Proof.
  intros w Hw; unfold print_final_stats, bind; cbv beta.
  pose proof (gather_pool (schedule env) w) as Hg.
  destruct (gather (schedule env) w) as [[[]|e] wg]; cbn [snd] in Hg;
    unfold has_tasks in *.
  - rewrite print_all_trace; cbn; destruct (close env); cbn; congruence.
  - cbn; congruence.
  - cbn; congruence.
Qed.

(** The tasks of the pool at the end of [main], when it gets past the
    connection and no provisioning call lets an exception through: the
    publishers of each kind in the order of creation, those of the
    key-value and object-store kinds only with a handle, those of the
    JetStream kind whatever [add_stream] did, and the reporter. *)
Theorem launched_tasks config env u :
  normal_publishers config + js_publishers config + reqrep_publishers config
  + kv_publishers config + obj_publishers config <> 0 ->
  connect env = Returns u ->
  provisioned (create_key_value env) (key_value env) <> None ->
  provisioned (create_object_store env) (object_store env) <> None ->
  has_tasks (expected_tasks config env) (snd (program config env)).
Proof.
  intros Htotal Hconnect Hkv Hobj.
  destruct (provisioned (create_key_value env) (key_value env)) as [bk|] eqn:Hk;
    [|contradiction].
  destruct (provisioned (create_object_store env) (object_store env))
    as [bo|] eqn:Ho; [|contradiction].
  unfold program, main, expected_tasks; cbv zeta.
  apply Z.eqb_neq in Htotal; rewrite Htotal, Hconnect, Hk, Ho.
  assert (H0 : has_tasks [] initial_world) by reflexivity.
  revert H0; generalize initial_world.
  change (leads_to (has_tasks []) ?m ?Q) with (leads_to (has_tasks []) m Q).
  eapply leads_to_after; [apply returns_print|intros ?; cbv beta].
  eapply leads_to_after; [apply returns_emit|intros ?; cbv beta].
  eapply leads_to_after; [apply returns_print|intros ?; cbv beta].
  eapply leads_to_after with (R := fun _ => has_tasks []);
    [destruct (_ || _); [apply returns_print|apply returns_ret]|intros ?; cbv beta].
  eapply leads_to_after with (R := fun _ => has_tasks []);
    [intros w _; exists tt; split; reflexivity|intros ?; cbv beta].
  eapply leads_to_after; [apply returns_print|intros ?; cbv beta].
  eapply leads_to_after; [apply returns_create_tasks|intros ?; cbv beta].
  eapply leads_to_after; [apply returns_js_block|intros ?; cbv beta].
  eapply leads_to_after; [apply returns_create_tasks|intros ?; cbv beta].
  eapply leads_to_after; [apply returns_kv_block, Hk|intros ?; cbv beta].
  eapply leads_to_after; [apply returns_obj_block, Ho|intros ?; cbv beta].
  eapply leads_to_after; [apply returns_reporter_block|intros ?; cbv beta].
  eapply leads_to_after; [apply returns_print|intros ?; cbv beta].
  cbn [app]; rewrite <- !app_assoc.
  apply summary_keeps_tasks.
Qed.

(** On a broker without JetStream, with one publisher of each of four kinds
    configured: the key-value and the object-store publisher are not
    created, the JetStream publisher is. *)
Lemma launched_without_jetstream :
  has_tasks
    [ (Publisher Normal, ""%string, 0);
      (Publisher JetStream, ""%string, 0);
      (Reporter, ""%string, 0) ]
    (snd (program (config_with 1 1 0 1 1) broker_without_jetstream)).
Proof.
  apply (launched_tasks (config_with 1 1 0 1 1) broker_without_jetstream tt);
    reflexivity || discriminate.
Defined.

(** C1 at a failing input.  With two JetStream publishers configured and a
    broker on which [add_stream] raises (JetStream is not enabled),
    [ensure_stream] prints its warning and [main] goes on to create both
    JetStream publishers; they run, every publish fails and is counted as an
    error.  (The key-value and object-store branches of [main] do skip their
    publishers when provisioning gives no handle.) *)
Theorem stream_failure_still_launches_jetstream :
  let r := program (config_with 0 2 0 0 0) broker_without_jetstream in
  outcome (add_stream broker_without_jetstream) = Raises jetstream_disabled
  /\ fst r = Returns Finished
  /\ In (Print "Warning: Could not ensure stream exists: nats: JetStream not enabled")
        (trace (snd r))
  /\ map identity (pool (snd r))
     = [ (Publisher JetStream, ""%string, 0);
         (Publisher JetStream, ""%string, 1);
         (Reporter, ""%string, 0) ]
  /\ js_sent (stats (snd r)) = 0
  /\ js_errors (stats (snd r)) = 3.
Proof.
  vm_compute; repeat split; auto.
  repeat first [left; reflexivity | right].
Qed.

(** ** Resuming a loop

    Running a loop over a script and resuming it over a second one is
    running it over both: the task that the event loop resumes turn by turn
    is the coroutine of the program. *)
Lemma loop_of_app k handle publisher_id config script script' sequence w :
  loop_of k handle publisher_id config (script ++ script') sequence w =
  and_then (loop_of k handle publisher_id config script sequence w)
    (loop_of k handle publisher_id config script').
Proof.
  revert script sequence w.
  apply (loop_of_ind k handle publisher_id config
           (fun script sequence w r =>
              loop_of k handle publisher_id config (script ++ script')
                sequence w
              = and_then r (loop_of k handle publisher_id config script'))).
  - intros script sequence w Hw; apply loop_of_stopped, Hw.
  - intros sequence w Hw; reflexivity.
  - intros t script sequence w Hw Hs; cbn [app].
    rewrite loop_of_cons by assumption; cbv zeta; rewrite Hs; reflexivity.
  - intros t script sequence w r Hw Hs IH; cbn [app].
    rewrite loop_of_cons by assumption; cbv zeta; rewrite Hs; exact IH.
Qed.

(** ** Instances *)

Lemma no_publishers_exit_example :
  normal_publishers default_config + js_publishers default_config
  + reqrep_publishers default_config + kv_publishers default_config
  + obj_publishers default_config = 0
  /\ fst (program default_config (healthy_broker [])) = Returns (Exit 1)
  /\ pool (snd (program default_config (healthy_broker []))) = []
  /\ ~ In (Connect (nats_url default_config))
          (trace (snd (program default_config (healthy_broker [])))).
Proof.
  split; [reflexivity|].
  rewrite (no_publishers_is_a_configuration_error default_config
             (healthy_broker []) eq_refl).
  repeat split; cbn; intuition discriminate.
Defined.

Lemma failing_normal_publisher_example :
  let t := tick_failed no_stream false in
  let w := initial_world in
  let r := run_publisher_of Normal "" 0 (config_with 1 0 0 0 0) [t; t; t] w in
  fst r = Returns (Suspended 3)
  /\ normal_errors (stats (snd r)) = 3
  /\ normal_sent (stats (snd r)) = 0
  /\ stop_event (snd r) = false.
Proof.
  cbv zeta.
  assert (Hf : Forall send_fails
                 [tick_failed no_stream false; tick_failed no_stream false;
                  tick_failed no_stream false])
    by (repeat constructor; exists no_stream; reflexivity).
  assert (Hn : Forall no_signal
                 [tick_failed no_stream false; tick_failed no_stream false;
                  tick_failed no_stream false])
    by (repeat constructor).
  destruct (failed_send_counts_error_and_continues Normal "" 0
              (config_with 1 0 0 0 0) (tick_failed no_stream false) [] 0
              [tick_failed no_stream false; tick_failed no_stream false;
               tick_failed no_stream false]
              initial_world no_stream eq_refl eq_refl Hf Hn)
    as [_ (w' & Hrun & Hstop & Herr & Hoth)].
  rewrite Hrun; cbn [fst snd].
  specialize (Herr 0 eq_refl).
  pose proof (Hoth "normal_sent"%string ltac:(discriminate)) as Hsent.
  cbn in Herr, Hsent.
  repeat split; auto; congruence.
Defined.

(** Ten sends in two seconds are five a second; one send in three seconds
    is the float nearest to a third; no time elapsed, or a clock behind the
    start, give 0. *)
Lemma rate_example :
  rate (mkStats 10 0 0 0 0 0 0 0 0 0 5) 7 = Returns 5%float
  /\ rate (mkStats 1 0 0 0 0 0 0 0 0 0 0) 3
     = Returns (SF2Prim (S754_finite false 6004799503160661 (-54)))
  /\ rate (mkStats 10 0 0 0 0 0 0 0 0 0 5) 5 = Returns 0%float
  /\ rate (mkStats 10 0 0 0 0 0 0 0 0 0 5) 3 = Returns 0%float.
Proof.
  split; [|split; [|split]].
  - destruct (rate_is_total_over_positive_elapsed
                (mkStats 10 0 0 0 0 0 0 0 0 0 5) 7) as (H & _).
    rewrite (H eq_refl); vm_compute; reflexivity.
  - destruct (rate_is_total_over_positive_elapsed
                (mkStats 1 0 0 0 0 0 0 0 0 0 0) 3) as (H & _).
    rewrite (H eq_refl); vm_compute; reflexivity.
  - destruct (rate_is_total_over_positive_elapsed
                (mkStats 10 0 0 0 0 0 0 0 0 0 5) 5) as (_ & H & _).
    exact (H eq_refl).
  - destruct (rate_is_total_over_positive_elapsed
                (mkStats 10 0 0 0 0 0 0 0 0 0 5) 3) as (_ & _ & H & _).
    exact (H eq_refl).
Defined.

(** The specification takes [rate] to be the quotient whenever the elapsed
    time is not zero; with the clock behind the start time (here by two
    seconds, with ten sends: the quotient is -5) the program returns 0
    instead. *)
Lemma rate_with_clock_set_back :
  let s := mkStats 10 0 0 0 0 0 0 0 0 0 5 in
  let now := 3%float in
  let elapsed := (now - start_time s)%float in
  (elapsed =? 0)%float = false
  /\ float_of_int (total_sent s) = Some 10%float
  /\ (10 / elapsed)%float = (-5)%float
  /\ rate s now = Returns 0%float
  /\ rate s now <> Returns (10 / elapsed)%float.
Proof.
  cbv zeta; repeat split; try (vm_compute; reflexivity).
  intros H.
  apply (f_equal (fun r => match r with
                           | Returns x => (x <? 0)%float
                           | Raises _ => false
                           end)) in H.
  vm_compute in H; discriminate.
Qed.

Lemma fired_wait_example :
  let r := run_publisher_of Normal "" 0 (config_with 1 0 0 0 0)
             [tick_ok false; tick_ok true; tick_ok false] initial_world in
  let evs := new_events initial_world (snd r) in
  evs = removelast evs ++ [WaitFor (ms_to_sec 1000) true]
  /\ fst r = Returns Returned.
Proof.
  cbv zeta.
  assert (Heq : new_events initial_world
                  (snd (run_publisher_of Normal "" 0 (config_with 1 0 0 0 0)
                          [tick_ok false; tick_ok true; tick_ok false]
                          initial_world))
                = removelast
                    (new_events initial_world
                       (snd (run_publisher_of Normal "" 0
                               (config_with 1 0 0 0 0)
                               [tick_ok false; tick_ok true; tick_ok false]
                               initial_world)))
                  ++ WaitFor (ms_to_sec 1000) true :: [])
    by (vm_compute; reflexivity).
  destruct (publisher_exits_at_fired_wait Normal "" 0 (config_with 1 0 0 0 0)
              [tick_ok false; tick_ok true; tick_ok false] initial_world)
    as (_ & _ & Hlast).
  destruct (Hlast _ _ _ Heq) as [_ Hret].
  split; [exact Heq|exact Hret].
Defined.

Lemma final_summary_example :
  let r := program (config_with 2 0 0 0 0) (healthy_broker short_run) in
  let w' := snd r in
  In (Print "All publishers started. Press Ctrl+C to stop.") (trace w')
  /\ forallb is_done (pool w') = true
  /\ filter is_total_line (trace w')
     = [Print "Total: 3 messages (errors: 0)"]
  /\ normal_sent (stats w') = 3
  /\ fst r = Returns Finished.
Proof.
  cbv zeta.
  assert (Hstarted :
            In (Print "All publishers started. Press Ctrl+C to stop.")
               (trace (snd (program (config_with 2 0 0 0 0)
                              (healthy_broker short_run)))))
    by (vm_compute; repeat first [left; reflexivity | right]).
  assert (Hdone :
            forallb is_done
              (pool (snd (program (config_with 2 0 0 0 0)
                            (healthy_broker short_run)))) = true)
    by (vm_compute; reflexivity).
  destruct (final_summary_once_with_exact_totals (config_with 2 0 0 0 0)
              (healthy_broker short_run)) as (Hsummary & _).
  destruct (Hsummary Hstarted Hdone) as (_ & Hone & Hend).
  split; [exact Hstarted|split; [exact Hdone|split; [|split]]].
  - rewrite Hone; vm_compute; reflexivity.
  - vm_compute; reflexivity.
  - destruct Hend as [Hret|(e & Hclose & _)]; [exact Hret|discriminate].
Defined.

Lemma reporter_example :
  stop_event initial_world = false
  /\ new_events initial_world
       (snd (stats_reporter default_config [tick_ok false; tick_ok true]
               initial_world))
     = [ WaitFor 5 false;
         Print "Stats: Normal=0 JS=0 ReqRep=0 KV=0 Obj=0 | Total=0 | Rate=0.0 msg/s";
         shutdown_notice;
         WaitFor 5 true ].
Proof.
  split; [reflexivity|].
  destruct (reporter_prints_on_timeout_only default_config (tick_ok false)
              [tick_ok true] initial_world eq_refl) as [Hrun _].
  rewrite Hrun; vm_compute; reflexivity.
Defined.

(** The specification calls the line of the reporter a snapshot of all
    counters; the line shows the sent counters only, so two states that
    differ in their error counters give the same line. *)
Lemma reporter_line_omits_error_counters :
  let s1 := mkStats 3 0 1 0 0 0 0 0 0 0 0 in
  let s2 := mkStats 3 4 1 2 0 0 0 0 0 0 0 in
  let w1 := mkWorld s1 false [] [] in
  let w2 := mkWorld s2 false [] [] in
  s1 <> s2
  /\ new_events w1 (snd (stats_reporter default_config [tick_ok false] w1))
     = new_events w2 (snd (stats_reporter default_config [tick_ok false] w2))
  /\ new_events w1 (snd (stats_reporter default_config [tick_ok false] w1))
     = [ WaitFor 5 false;
         Print "Stats: Normal=3 JS=1 ReqRep=0 KV=0 Obj=0 | Total=4 | Rate=0.3 msg/s" ].
Proof.
  cbv zeta; split; [discriminate|split; vm_compute; reflexivity].
Qed.



(** * Further properties *)

(** ** The events of a whole run of a publisher *)

Lemma performed_signal_free script :
  Forall no_signal script -> performed script = script.
Proof.
  induction 1 as [|t script [H1 H2] _ IH]; [reflexivity|].
  cbn [performed]; rewrite H1, H2, IH; reflexivity.
Qed.

(** The log of a loop entered with the event not set is the log before plus
    the events of the iterations it performs, numbered from the current
    sequence number on. *)
Lemma loop_of_trace k handle publisher_id config script sequence w :
  stop_event w = false ->
  trace (snd (loop_of k handle publisher_id config script sequence w))
  = trace w
    ++ run_events (send_operation k handle publisher_id config)
         (performed script) (sequence + 1).
Proof.
  revert script sequence w.
  apply (loop_of_ind k handle publisher_id config
           (fun script sequence w r =>
              stop_event w = false ->
              trace (snd r)
              = trace w
                ++ run_events (send_operation k handle publisher_id config)
                     (performed script) (sequence + 1))).
  - intros script sequence w Hw Hw'; congruence.
  - intros sequence w _ _; cbn; rewrite app_nil_r; reflexivity.
  - intros t script sequence w _ Hs _.
    unfold run_events; cbn [performed]; rewrite Hs.
    cbn; rewrite app_nil_r; reflexivity.
  - intros t script sequence w r _ Hs IH _.
    unfold run_events in *; cbn [performed]; rewrite Hs.
    cbn [numbered flat_map fst snd].
    rewrite IH by (unfold after_iteration; cbn; exact Hs).
    unfold after_iteration; cbn [trace]; rewrite <- app_assoc; reflexivity.
Qed.

Lemma run_publisher_of_trace k handle publisher_id config script w :
  stop_event w = false ->
  new_events w (snd (run_publisher_of k handle publisher_id config script w))
  = (if verbose config
     then [Print (log_started (send_operation k handle publisher_id config))]
     else [])
    ++ run_events (send_operation k handle publisher_id config)
         (performed script) 1.
Proof.
  intros Hw; apply new_events_app.
  rewrite run_publisher_of_loop.
  assert (Hl : logging (send_operation k handle publisher_id config)
               = verbose config) by (destruct k; reflexivity).
  rewrite loop_of_trace
    by (unfold announced; destruct (logging _); exact Hw).
  unfold announced; rewrite Hl; destruct (verbose config); cbn [trace].
  - rewrite <- app_assoc; reflexivity.
  - reflexivity.
Qed.

Lemma run_publisher_of_new_events k handle publisher_id config script w :
  new_events w (snd (run_publisher_of k handle publisher_id config script w))
  = (if verbose config
     then [Print (log_started (send_operation k handle publisher_id config))]
     else [])
    ++ (if stop_event w then []
        else run_events (send_operation k handle publisher_id config)
               (performed script) 1).
Proof.
  destruct (stop_event w) eqn:Hw; [|apply run_publisher_of_trace, Hw].
  apply new_events_app.
  assert (Hl : logging (send_operation k handle publisher_id config)
               = verbose config) by (destruct k; reflexivity).
  rewrite run_publisher_of_loop, loop_of_stopped
    by (unfold announced; destruct (logging _); exact Hw).
  unfold announced; rewrite Hl, app_nil_r.
  destruct (verbose config); cbn; rewrite ?app_nil_r; reflexivity.
Qed.

Lemma iteration_events_sends k handle publisher_id config t i :
  filter is_send
    (iteration_events (send_operation k handle publisher_id config) t i)
  = [send_call (send_operation k handle publisher_id config) i t].
Proof.
  unfold iteration_events.
  destruct k, (signal_in_send t), (signal_in_wait t), (verbose config) eqn:Hv;
    cbn [send_operation logging log_sent log_error send_call sent_counter
           error_counter send_interval app filter is_send];
    rewrite ?Hv; reflexivity.
Qed.




(** ** Destinations *)

Lemma str_injective (a b : Z) : Py.str a = Py.str b -> a = b.
Proof.
  unfold Py.str; intros H.
  assert (Hn : forall z, Z.to_int z <> Decimal.Pos Decimal.Nil
                         /\ Z.to_int z <> Decimal.Neg Decimal.Nil).
  { intros [|p|p]; split; cbn; try discriminate;
      intros Hp; injection Hp as Hp; exact (Unsigned.to_uint_nonnil p Hp). }
  apply (f_equal NilZero.int_of_string) in H.
  rewrite !NilZero.isi in H by apply Hn.
  injection H as H; apply (f_equal Z.of_int) in H.
  rewrite !DecimalZ.of_to in H; exact H.
Qed.

Lemma append_cancel_l (p a b : string) :
  (p ++ a)%string = (p ++ b)%string -> a = b.
Proof. induction p as [|c p IH]; cbn; [auto|intros H; injection H; auto]. Qed.

Lemma destination_injective k config a b :
  destination k config a = destination k config b -> a = b.
Proof.
  destruct k; unfold destination; intros H;
    apply append_cancel_l in H; cbn in H; injection H as H;
    apply str_injective, H.
Qed.

Lemma send_call_target k handle publisher_id config i t :
  target_of (send_call (send_operation k handle publisher_id config) i t)
  = Some (destination k config publisher_id).
Proof. destruct k; reflexivity. Qed.

Lemma run_events_In op ticks first e :
  In e (run_events op ticks first) ->
  exists i t, In t ticks /\ In e (iteration_events op t i).
Proof.
  unfold run_events; revert first.
  induction ticks as [|t ticks IH]; intros first; [intros []|].
  cbn [numbered flat_map fst snd]; rewrite in_app_iff; intros [H|H].
  - exists first, t; split; [left; reflexivity|exact H].
  - destruct (IH _ H) as (i & t' & Ht & He).
    exists i, t'; split; [right; exact Ht|exact He].
Qed.

Lemma performed_In script t : In t (performed script) -> In t script.
Proof.
  induction script as [|t' script IH]; [intros []|].
  cbn [performed]; intros [H|H]; [left; exact H|right].
  destruct (_ || _); [destruct H|apply IH, H].
Qed.

Lemma run_publisher_of_In k handle publisher_id config script w e :
  In e (new_events w
          (snd (run_publisher_of k handle publisher_id config script w))) ->
  (verbose config = true
   /\ e = Print (log_started (send_operation k handle publisher_id config)))
  \/ exists i t,
       In t script
       /\ In e (iteration_events
                  (send_operation k handle publisher_id config) t i).
Proof.
  rewrite run_publisher_of_new_events, in_app_iff; intros [H|H].
  - left; destruct (verbose config); [|destruct H].
    destruct H as [<-|[]]; split; reflexivity.
  - right; destruct (stop_event w); [destruct H|].
    destruct (run_events_In _ _ _ _ H) as (i & t & Ht & He).
    exists i, t; split; [apply performed_In, Ht|exact He].
Qed.

Lemma iteration_events_send k handle publisher_id config t i e :
  In e (iteration_events (send_operation k handle publisher_id config) t i) ->
  is_send e = true ->
  e = send_call (send_operation k handle publisher_id config) i t.
Proof.
  intros Hin He.
  assert (H : In e (filter is_send
                      (iteration_events
                         (send_operation k handle publisher_id config) t i)))
    by (apply filter_In; split; assumption).
  rewrite iteration_events_sends in H; destruct H as [<-|[]]; reflexivity.
Qed.

(** Every broker call of a publisher addresses the destination made of the
    prefix of its kind and its own number, and two publishers of one kind
    with different numbers have different destinations. *)
Theorem publishers_have_their_own_destination
    k handle publisher_id config script w :
  (forall e,
      In e (new_events w
              (snd (run_publisher_of k handle publisher_id config script w))) ->
      is_send e = true ->
      target_of e = Some (destination k config publisher_id))
  /\ (forall other,
         destination k config other = destination k config publisher_id ->
         other = publisher_id).
Proof.
  split; [|intros other; apply destination_injective].
  intros e Hin He.
  destruct (run_publisher_of_In _ _ _ _ _ _ _ Hin) as [[_ ->]|(i & t & _ & Hi)];
    [discriminate|].
  rewrite (iteration_events_send _ _ _ _ _ _ _ Hi He).
  apply send_call_target.
Qed.

(** ** The verbose log *)

Lemma iteration_events_quiet k handle publisher_id config t i text :
  verbose config = false ->
  In (Print text)
     (iteration_events (send_operation k handle publisher_id config) t i) ->
  Print text = shutdown_notice.
Proof.
  intros Hv; unfold iteration_events.
  assert (Hl : logging (send_operation k handle publisher_id config) = false)
    by (destruct k; exact Hv).
  rewrite Hl.
  assert (Hs : forall j, Print text
                         <> send_call
                              (send_operation k handle publisher_id config) j t)
    by (destruct k; discriminate).
  rewrite !in_app_iff; cbn [In].
  intros [[H|[]]|[H|[[H|[]]|[[]|[H|[H|[]]]]]]];
    try discriminate; try (symmetry in H; destruct (Hs _ H)).
  - destruct (signal_in_send t); [destruct H as [<-|[]]; reflexivity|destruct H].
  - destruct (signal_in_wait t); [destruct H as [<-|[]]; reflexivity|destruct H].
Qed.

(** Without [verbose] a publisher prints nothing of its own: the only line
    that can appear in the log during its run is the notice of the signal
    handler. *)
Theorem quiet_publisher_prints_nothing
    k handle publisher_id config script w text :
  verbose config = false ->
  In (Print text)
     (new_events w
        (snd (run_publisher_of k handle publisher_id config script w))) ->
  Print text = shutdown_notice.
Proof.
  intros Hv Hin.
  destruct (run_publisher_of_In _ _ _ _ _ _ _ Hin) as [[Hv' _]|(i & t & _ & Hi)];
    [congruence|].
  apply (iteration_events_quiet _ _ _ _ _ _ _ Hv Hi).
Qed.

Lemma quiet_publisher_example :
  verbose (config_with 1 0 0 0 0) = false
  /\ In (Print (newline ++ "Shutting down..."))
        (new_events initial_world
           (snd (run_publisher_of Normal "" 0 (config_with 1 0 0 0 0)
                   [tick_ok true] initial_world)))
  /\ Print (newline ++ "Shutting down...") = shutdown_notice.
Proof.
  assert (H : In (Print (newline ++ "Shutting down..."))
                (new_events initial_world
                   (snd (run_publisher_of Normal "" 0 (config_with 1 0 0 0 0)
                           [tick_ok true] initial_world))))
    by (vm_compute; right; right; left; reflexivity).
  split; [reflexivity|split; [exact H|]].
  exact (quiet_publisher_prints_nothing Normal "" 0 (config_with 1 0 0 0 0)
           [tick_ok true] initial_world _ eq_refl H).
Defined.

(** ** Random strings *)

Lemma choices_In rng population k :
  population <> [] ->
  Forall (fun c => In c population) (choices rng population k).
Proof.
  intros Hp; unfold choices; apply Forall_forall; intros c Hc.
  apply in_map_iff in Hc; destruct Hc as (i & <- & _).
  apply nth_In, Nat.mod_upper_bound.
  destruct population; [congruence|discriminate].
Qed.

Lemma alphabet_plain :
  Forall (fun c => Json.escape_char c = String c EmptyString
                   /\ encode_char c = [byte_of_ascii c]) alphabet.
Proof. unfold alphabet; cbn; repeat constructor. Qed.


Lemma encode_plain (l : list ascii) :
  Forall (fun c => encode_char c = [byte_of_ascii c]) l ->
  encode (string_of_list_ascii l) = map byte_of_ascii l.
Proof.
  unfold encode; rewrite list_ascii_of_string_of_list_ascii.
  induction 1 as [|c l Hc _ IH]; [reflexivity|].
  cbn; rewrite Hc, IH; reflexivity.
Qed.

Lemma random_string_chars rng n :
  Forall (fun c => In c alphabet) (choices rng alphabet n).
Proof. apply choices_In; discriminate. Qed.

Lemma random_string_plain rng n :
  Forall (fun c => Json.escape_char c = String c EmptyString
                   /\ encode_char c = [byte_of_ascii c])
    (choices rng alphabet n).
Proof.
  apply Forall_forall; intros c Hin.
  pose proof alphabet_plain as Ha.
  pose proof (random_string_chars rng n) as Hc.
  rewrite Forall_forall in Ha, Hc; apply Ha, Hc, Hin.
Qed.

Lemma length_choices rng population n :
  List.length (choices rng population n) = Z.to_nat n.
Proof. unfold choices; rewrite length_map, length_seq; reflexivity. Qed.

Lemma length_encode_random_string rng n :
  List.length (encode (random_string rng n)) = Z.to_nat n.
Proof.
  unfold random_string; rewrite encode_plain, length_map.
  - apply length_choices.
  - generalize (random_string_plain rng n); apply Forall_impl.
    intros c [_ H]; exact H.
Qed.


(** ** Objects *)

(** Every object that an object-store publisher puts goes to the bucket of
    its handle under the name of the publisher, and its data has exactly
    [obj_size_bytes] bytes (none when that size is not positive). *)
Theorem object_payload_size
    obs publisher_id config script w bucket name data :
  In (ObjPut bucket name data)
     (new_events w
        (snd (run_obj_publisher obs publisher_id config script w))) ->
  bucket = obs
  /\ name = destination ObjectStore config publisher_id
  /\ Z.of_nat (List.length data) = Z.max 0 (obj_size_bytes config).
Proof.
  change (run_obj_publisher obs publisher_id config script)
    with (run_publisher_of ObjectStore obs publisher_id config script).
  intros Hin.
  destruct (run_publisher_of_In _ _ _ _ _ _ _ Hin) as [[_ H]|(i & t & _ & Hi)];
    [discriminate|].
  apply iteration_events_send in Hi; [|reflexivity].
  cbn in Hi; injection Hi as -> -> ->.
  split; [reflexivity|split; [reflexivity|]].
  rewrite length_encode_random_string; lia.
Qed.

Lemma object_payload_example :
  In (ObjPut "test-objects" "test-obj-3"
        (encode (random_string sample_rng 1024)))
     (new_events initial_world
        (snd (run_obj_publisher "test-objects" 3 (config_with 0 0 0 0 4)
                [tick_ok true] initial_world)))
  /\ Z.of_nat (List.length (encode (random_string sample_rng 1024))) = 1024.
Proof.
  assert (H : In (ObjPut "test-objects" "test-obj-3"
                    (encode (random_string sample_rng 1024)))
                (new_events initial_world
                   (snd (run_obj_publisher "test-objects" 3
                           (config_with 0 0 0 0 4) [tick_ok true]
                           initial_world))))
    by (vm_compute; left; reflexivity).
  split; [exact H|].
  exact (proj2 (proj2 (object_payload_size _ _ _ _ _ _ _ _ H))).
Defined.

(** ** The reporter only reads *)



(** ** Every send is counted once *)


Lemma new_events_trans w w1 w2 a b :
  trace w1 = trace w ++ a -> trace w2 = trace w1 ++ b ->
  new_events w w2 = a ++ b.
Proof.
  intros H1 H2; apply new_events_app; rewrite H2, H1, app_assoc; reflexivity.
Qed.












(** ** After the shutdown signal *)





(** ** Shutdown completes *)












(** ** The order of the increments *)

Lemma bump_comm a b s :
  is_counter a = true -> is_counter b = true ->
  bump b (bump a s) = bump a (bump b s).
Proof.
  intros Ha Hb; counter_cases Ha; counter_cases Hb; destruct s; reflexivity.
Qed.

Lemma apply_event_comm s e1 e2 :
  unit_increment e1 = true -> unit_increment e2 = true ->
  apply_event (apply_event s e1) e2 = apply_event (apply_event s e2) e1.
Proof.
  intros H1 H2.
  destruct e1 as [| | | | | | | | | | | |n1 a1| |]; try reflexivity;
    destruct e2 as [| | | | | | | | | | | |n2 a2| |]; try reflexivity.
  cbn in H1, H2.
  apply andb_prop in H1 as [Hc1 Ha1]; apply andb_prop in H2 as [Hc2 Ha2].
  apply Z.eqb_eq in Ha1, Ha2; subst a1 a2.
  change (bump n2 (bump n1 s) = bump n1 (bump n2 s)).
  apply bump_comm; assumption.
Qed.

(** The counters do not depend on the order in which the increments of the
    tasks take effect: two logs with the same events in any order lead to
    the same counters. *)
Theorem counters_do_not_depend_on_order evs evs' s :
  Permutation evs evs' ->
  Forall (fun e => unit_increment e = true) evs ->
  replay evs s = replay evs' s.
Proof.
  intros Hp; revert s; induction Hp as [|x l l' _ IH|x y l|l l' l'' H1 IH1 H2 IH2];
    intros s Hf.
  - reflexivity.
  - change (replay l (apply_event s x) = replay l' (apply_event s x)).
    apply IH; inversion Hf; assumption.
  - change (replay l (apply_event (apply_event s y) x)
            = replay l (apply_event (apply_event s x) y)).
    inversion Hf as [|? ? Hy Hf']; inversion Hf' as [|? ? Hx _]; subst.
    rewrite (apply_event_comm s y x) by assumption; reflexivity.
  - rewrite IH1 by assumption; apply IH2.
    eapply Permutation_Forall; eassumption.
Qed.

Lemma order_example :
  Permutation
    [StatIncrement "normal_sent" 1; StatIncrement "js_errors" 1;
     StatIncrement "normal_sent" 1]
    [StatIncrement "js_errors" 1; StatIncrement "normal_sent" 1;
     StatIncrement "normal_sent" 1]
  /\ replay
       [StatIncrement "normal_sent" 1; StatIncrement "js_errors" 1;
        StatIncrement "normal_sent" 1] (new_stats 0)
     = replay
         [StatIncrement "js_errors" 1; StatIncrement "normal_sent" 1;
          StatIncrement "normal_sent" 1] (new_stats 0).
Proof.
  assert (H : Permutation
                [StatIncrement "normal_sent" 1; StatIncrement "js_errors" 1;
                 StatIncrement "normal_sent" 1]
                [StatIncrement "js_errors" 1; StatIncrement "normal_sent" 1;
                 StatIncrement "normal_sent" 1])
    by apply perm_swap.
  split; [exact H|].
  apply (counters_do_not_depend_on_order _ _ (new_stats 0) H).
  repeat constructor.
Defined.


(** ** Provisioning *)

Lemma await_result call a w :
  fst (await call a w) = outcome a
  /\ map identity (pool (snd (await call a w))) = map identity (pool w).
Proof. apply (await_outcome call a (map identity (pool w)) w); reflexivity. Qed.

Lemma ensure_stream_result env name subject_prefix w :
  fst (ensure_stream env name subject_prefix w) = Returns tt
  /\ map identity (pool (snd (ensure_stream env name subject_prefix w)))
     = map identity (pool w).
Proof.
  destruct (returns_ensure_stream env name subject_prefix
              (map identity (pool w)) w eq_refl) as ([] & Hr & Hp).
  split; [exact Hr|exact Hp].
Qed.

Lemma ensure_kv_bucket_result env bucket w :
  fst (ensure_kv_bucket env bucket w)
  = handle_of bucket (create_key_value env) (key_value env)
  /\ map identity (pool (snd (ensure_kv_bucket env bucket w)))
     = map identity (pool w).
Proof.
  unfold ensure_kv_bucket, handle_of, try_except, bind; cbv beta.
  destruct (await_result (CreateKeyValue bucket) (create_key_value env) w)
    as [Hr Hp].
  destruct (await _ _ w) as [r w1]; cbn [fst snd] in *; subst r.
  destruct (outcome (create_key_value env)) as [[]|e].
  - split; [reflexivity|exact Hp].
  - destruct (is_bad_request e).
    + destruct (await_result (KeyValueLookup bucket) (key_value env) w1)
        as [Hr' Hp'].
      destruct (await _ _ w1) as [r w2]; cbn [fst snd] in *; subst r.
      destruct (outcome (key_value env)) as [[]|e'];
        (split; [reflexivity|exact (eq_trans Hp' Hp)]).
    + split; [reflexivity|exact Hp].
Qed.

Lemma ensure_object_store_result env bucket w :
  fst (ensure_object_store env bucket w)
  = handle_of bucket (create_object_store env) (object_store env)
  /\ map identity (pool (snd (ensure_object_store env bucket w)))
     = map identity (pool w).
Proof.
  unfold ensure_object_store, handle_of, try_except, bind; cbv beta.
  destruct (await_result (CreateObjectStore bucket) (create_object_store env) w)
    as [Hr Hp].
  destruct (await _ _ w) as [r w1]; cbn [fst snd] in *; subst r.
  destruct (outcome (create_object_store env)) as [[]|e].
  - split; [reflexivity|exact Hp].
  - destruct (is_bad_request e).
    + destruct (await_result (ObjectStoreLookup bucket) (object_store env) w1)
        as [Hr' Hp'].
      destruct (await _ _ w1) as [r w2]; cbn [fst snd] in *; subst r.
      destruct (outcome (object_store env)) as [[]|e'];
        (split; [reflexivity|exact (eq_trans Hp' Hp)]).
    + split; [reflexivity|exact Hp].
Qed.

(** What provisioning gives depends on the answers of the broker only, not
    on what the tasks do while a call is pending: [ensure_stream] never
    raises; [ensure_kv_bucket] and [ensure_object_store] give the handle
    when the bucket is created or exists and its lookup succeeds, give
    [None] when the creation fails in another way, and raise only the
    exception of a failed lookup.  None of them changes which tasks the
    pool holds. *)
Theorem provisioning_outcomes env name subject_prefix bucket w :
  fst (ensure_stream env name subject_prefix w) = Returns tt
  /\ fst (ensure_kv_bucket env bucket w)
     = handle_of bucket (create_key_value env) (key_value env)
  /\ fst (ensure_object_store env bucket w)
     = handle_of bucket (create_object_store env) (object_store env)
  /\ map identity (pool (snd (ensure_stream env name subject_prefix w)))
     = map identity (pool w)
  /\ map identity (pool (snd (ensure_kv_bucket env bucket w)))
     = map identity (pool w)
  /\ map identity (pool (snd (ensure_object_store env bucket w)))
     = map identity (pool w).
Proof.
  destruct (ensure_stream_result env name subject_prefix w) as [H1 H2].
  destruct (ensure_kv_bucket_result env bucket w) as [H3 H4].
  destruct (ensure_object_store_result env bucket w) as [H5 H6].
  repeat split; assumption.
Qed.

(** ** How [main] ends *)

Lemma ends_raises {A B} P (m : M A) (k : A -> M B) e (S : World -> Prop) :
  ends P m (fun r => fst r = Raises e /\ S (snd r)) ->
  ends P (bind m k) (fun r => fst r = Raises e /\ S (snd r)).
Proof.
  intros Hm w Hw; unfold bind.
  destruct (Hm w Hw) as [He HS].
  destruct (m w) as [r w1]; cbn [fst snd] in *; subst r; split; auto.
Qed.

Lemma returns_and_keeps {A} P I (m : M A) R :
  returns P m R -> keeps I m ->
  returns (fun w => P w /\ I w) m (fun a w => R a w /\ I w).
Proof.
  intros Hm Hk w [Hp Hi].
  destruct (Hm w Hp) as (a & Ha & HR).
  exists a; split; [exact Ha|split; [exact HR|apply Hk, Hi]].
Qed.

Lemma before_summary_no_summary w :
  before_summary w ->
  ~ In Close (trace w) /\ filter is_total_line (trace w) = [].
Proof.
  intros Hw; split; [apply before_summary_open, Hw|].
  apply ordinary_not_total, Hw.
Qed.

(** When the key-value bucket is reported as existing and its lookup
    raises, the exception leaves [main]: the run ends with it, the
    publishers created before are left in the pool, no summary is printed
    and the connection is not closed. *)
Theorem bucket_lookup_failure_aborts config env u e e' :
  normal_publishers config + js_publishers config + reqrep_publishers config
  + kv_publishers config + obj_publishers config <> 0 ->
  connect env = Returns u ->
  0 < kv_publishers config ->
  outcome (create_key_value env) = Raises e ->
  is_bad_request e = true ->
  outcome (key_value env) = Raises e' ->
  let r := program config env in
  fst r = Raises e'
  /\ map identity (pool (snd r)) = tasks_before_kv config
  /\ ~ In Close (trace (snd r))
  /\ filter is_total_line (trace (snd r)) = [].
Proof.
  intros Htotal Hconnect Hkv Hcreate Hbad Hlookup; cbv zeta.
  assert (Hends :
    ends (fun w => has_tasks [] w /\ before_summary w) (main config env)
      (fun r => fst r = Raises e'
                /\ (has_tasks (tasks_before_kv config) (snd r)
                    /\ before_summary (snd r)))).
  { unfold main, tasks_before_kv; cbv zeta.
    apply Z.eqb_neq in Htotal; rewrite Htotal, Hconnect.
    eapply ends_after;
      [apply returns_and_keeps; [apply returns_print|keeps_before_summary]
      |intros ?; cbv beta].
    eapply ends_after;
      [apply returns_and_keeps; [apply returns_emit|keeps_before_summary]
      |intros ?; cbv beta].
    eapply ends_after;
      [apply returns_and_keeps; [apply returns_print|keeps_before_summary]
      |intros ?; cbv beta].
    eapply ends_after
      with (R := fun _ w => has_tasks [] w /\ before_summary w);
      [apply returns_and_keeps;
       [destruct (_ || _); [apply returns_print|apply returns_ret]
       |keeps_before_summary]
      |intros ?; cbv beta].
    eapply ends_after
      with (R := fun _ w => has_tasks [] w /\ before_summary w);
      [intros w [_ Hb]; exists tt; split; [reflexivity|split; [reflexivity|exact Hb]]
      |intros ?; cbv beta].
    eapply ends_after;
      [apply returns_and_keeps; [apply returns_print|keeps_before_summary]
      |intros ?; cbv beta].
    eapply ends_after;
      [apply returns_and_keeps; [apply returns_create_tasks|keeps_before_summary]
      |intros ?; cbv beta].
    eapply ends_after;
      [apply returns_and_keeps; [apply returns_js_block|keeps_before_summary]
      |intros ?; cbv beta].
    eapply ends_after;
      [apply returns_and_keeps; [apply returns_create_tasks|keeps_before_summary]
      |intros ?; cbv beta].
    cbn [app]; rewrite <- !app_assoc.
    apply ends_raises
      with (S := fun w => has_tasks (tasks_of (Publisher Normal) ""
                                        (range (normal_publishers config))
                                      ++ tasks_of (Publisher JetStream) ""
                                           (range (js_publishers config))
                                      ++ tasks_of (Publisher ReqRep) ""
                                           (range (reqrep_publishers config)))
                            w
                          /\ before_summary w).
    apply Z.gtb_lt in Hkv; rewrite Hkv.
    apply ends_raises
      with (S := fun w => has_tasks (tasks_of (Publisher Normal) ""
                                        (range (normal_publishers config))
                                      ++ tasks_of (Publisher JetStream) ""
                                           (range (js_publishers config))
                                      ++ tasks_of (Publisher ReqRep) ""
                                           (range (reqrep_publishers config)))
                            w
                          /\ before_summary w).
    intros w [Hp Hb].
    destruct (ensure_kv_bucket_result env (kv_bucket config) w) as [Hr Hi].
    unfold handle_of in Hr; rewrite Hcreate, Hbad, Hlookup in Hr.
    split; [exact Hr|split].
    - unfold has_tasks in *; congruence.
    - clear Hp Hr Hi; revert w Hb.
      change (keeps before_summary (ensure_kv_bucket env (kv_bucket config))).
      keeps_before_summary. }
  destruct (Hends initial_world) as (Hr & Hp & Hb);
    [split; [reflexivity|constructor]|].
  split; [exact Hr|split; [exact Hp|]].
  apply before_summary_no_summary, Hb.
Qed.

Lemma bucket_lookup_failure_example :
  fst (program (config_with 1 0 0 1 0) broker_with_broken_bucket)
  = Raises lookup_failed
  /\ map identity
       (pool (snd (program (config_with 1 0 0 1 0) broker_with_broken_bucket)))
     = [(Publisher Normal, ""%string, 0)].
Proof.
  destruct (bucket_lookup_failure_aborts (config_with 1 0 0 1 0)
              broker_with_broken_bucket tt bucket_exists lookup_failed)
    as (H1 & H2 & _); try reflexivity; [discriminate|].
  split; [exact H1|exact H2].
Defined.





